(** * GenesisPad: the capped free-mint token and its factory registry

    A shallow embedding of the two Solidity contracts of the repository,
    [GenesisToken] and [GenesisTokenFactory], and the properties of the
    supply cap and of the registry's live-merged reads.

    Unsigned integers are [N] with their width written out where the code
    relies on it ([uint64(...)] truncates, [uint256] addition is checked).
    A contract function is a computation in a state-and-revert monad; an
    external transaction runs such a computation and, when it reverts,
    restores the state it started from. *)

From Stdlib Require Import NArith ZArith Ascii String List Lia.
From stdpp Require Import base option list gmap strings.

Local Open Scope string_scope.
Local Open Scope N_scope.

(** ** Machine integers and addresses *)

Definition uint64_bound : N := 2 ^ 64.
Definition uint256_bound : N := 2 ^ 256.

Definition is_uint64 (x : N) : Prop := x < uint64_bound.

(** The explicit conversion [uint64(x)]: Solidity truncates, it does not
    check. *)
Definition to_uint64 (x : N) : N := x mod uint64_bound.

Definition address : Type := N.

(** ** Failures *)

(** What a call can fail with: [require(c, reason)], a compiler-inserted
    panic (0x11 arithmetic overflow, 0x32 array index out of bounds), a
    failure inside the confidential-computation library, and a high-level
    call to an address that holds no contract. *)
Inductive error : Type :=
| Revert (reason : string)
| Panic (code : N)
| CapabilityFailure
| CallToNonContract.

(** The three kinds of failure the design document names. *)
Inductive ErrorKind : Type :=
| InvalidArgument
| SupplyExceeded
| IndexOutOfRange.

Definition error_kind (e : error) : option ErrorKind :=
  match e with
  | Revert reason =>
      if String.eqb reason "Name required" then Some InvalidArgument
      else if String.eqb reason "Symbol required" then Some InvalidArgument
      else if String.eqb reason "Max supply required" then Some InvalidArgument
      else if String.eqb reason "Amount required" then Some InvalidArgument
      else if String.eqb reason "Exceeds supply" then Some SupplyExceeded
      else None
  | Panic code => if code =? 50 then Some IndexOutOfRange else None
  | _ => None
  end.

(** ** The execution monad *)

Inductive result (S A : Type) : Type :=
| Ok (a : A) (s : S)
| Err (e : error).
Arguments Ok {S A} a s.
Arguments Err {S A} e.

Definition Exec (S A : Type) : Type := S -> result S A.

Definition ret {S A} (a : A) : Exec S A := fun s => Ok a s.

Definition bind {S A B} (c : Exec S A) (k : A -> Exec S B) : Exec S B :=
  fun s => match c s with
           | Ok a s' => k a s'
           | Err e => Err e
           end.

Definition throw {S A} (e : error) : Exec S A := fun _ => Err e.
Definition get {S} : Exec S S := fun s => Ok s s.
Definition gets {S A} (f : S -> A) : Exec S A := fun s => Ok (f s) s.
Definition put {S} (s : S) : Exec S unit := fun _ => Ok tt s.
Definition modify {S} (f : S -> S) : Exec S unit := fun s => Ok tt (f s).

Definition require {S} (cond : bool) (reason : string) : Exec S unit :=
  if cond then ret tt else throw (Revert reason).

Definition from_capability {S A} (o : option A) : Exec S A :=
  match o with
  | Some a => ret a
  | None => throw CapabilityFailure
  end.

(** Checked [uint256] addition (Solidity 0.8). *)
Definition checked_add {S} (a b : N) : Exec S N :=
  if a + b <? uint256_bound then ret (a + b) else throw (Panic 17).

(** Checked array read [arr[i]]. *)
Definition array_at {S A} (arr : list A) (i : N) : Exec S A :=
  match arr !! N.to_nat i with
  | Some x => ret x
  | None => throw (Panic 50)
  end.

Declare Scope exec_scope.
Delimit Scope exec_scope with exec.
Notation "x ← y ; z" := (bind y (fun x => z))
  (at level 20, y at level 100, z at level 200, only parsing) : exec_scope.
Notation "x ;; z" := (bind x (fun _ => z))
  (at level 100, z at level 200, only parsing, right associativity) : exec_scope.

(** The outcome of an external transaction. *)
Inductive outcome (A : Type) : Type :=
| Success (a : A)
| Reverted (e : error).
Arguments Success {A} a.
Arguments Reverted {A} e.

(** An external transaction: all of the computation's writes are kept when
    it returns and all are dropped when it reverts. *)
Definition transact {S A} (c : Exec S A) (s : S) : outcome A * S :=
  match c s with
  | Ok a s' => (Success a, s')
  | Err e => (Reverted e, s)
  end.

Definition succeeded {A} (o : outcome A) : bool :=
  match o with Success _ => true | Reverted _ => false end.

Definition failed_with {A} (k : ErrorKind) (o : outcome A) : Prop :=
  exists e, o = Reverted e /\ error_kind e = Some k.

(** ** The confidential-computation capability

    [FHE.asEuint64] and the ERC7984 base contract's [_mint] belong to
    libraries outside the repository.  They are taken as an interface: an
    opaque ledger, an opaque encrypted amount, and two operations that may
    fail. *)
Class ConfidentialCapability : Type := {
  euint64 : Type;
  Ledger : Type;
  ledger_init : Ledger;
  asEuint64 : N -> option euint64;
  _mint : Ledger -> address -> euint64 -> option Ledger
}.

(** The address the EVM gives a contract made with [new].  It is a hash of
    the creating account and its nonce, and a creation never lands on an
    address that already holds a contract; the model keeps that much: some
    function of the addresses in use that falls outside them. *)
Class Deployer : Type := {
  create_address : gset address -> address;
  create_address_fresh : forall used, create_address used ∉ used
}.

(** ** contract GenesisToken *)
Module GenesisToken.
Section Contract.
Context `{cap : ConfidentialCapability}.

Record Minted : Type := {
  minter : address;
  recipient : address;
  amount : N
}.

Record storage : Type := {
  name : string;
  symbol : string;
  maxSupply : N;
  mintedSupply : N;
  initialPriceWei : N;
  creator : address;
  ledger : Ledger;
  events : list Minted
}.

Definition set_maxSupply (v : N) (st : storage) : storage :=
  {| name := name st; symbol := symbol st; maxSupply := v;
     mintedSupply := mintedSupply st; initialPriceWei := initialPriceWei st;
     creator := creator st; ledger := ledger st; events := events st |}.

Definition set_mintedSupply (v : N) (st : storage) : storage :=
  {| name := name st; symbol := symbol st; maxSupply := maxSupply st;
     mintedSupply := v; initialPriceWei := initialPriceWei st;
     creator := creator st; ledger := ledger st; events := events st |}.

Definition set_initialPriceWei (v : N) (st : storage) : storage :=
  {| name := name st; symbol := symbol st; maxSupply := maxSupply st;
     mintedSupply := mintedSupply st; initialPriceWei := v;
     creator := creator st; ledger := ledger st; events := events st |}.

Definition set_creator (v : address) (st : storage) : storage :=
  {| name := name st; symbol := symbol st; maxSupply := maxSupply st;
     mintedSupply := mintedSupply st; initialPriceWei := initialPriceWei st;
     creator := v; ledger := ledger st; events := events st |}.

Definition set_ledger (v : Ledger) (st : storage) : storage :=
  {| name := name st; symbol := symbol st; maxSupply := maxSupply st;
     mintedSupply := mintedSupply st; initialPriceWei := initialPriceWei st;
     creator := creator st; ledger := v; events := events st |}.

Definition emit (ev : Minted) (st : storage) : storage :=
  {| name := name st; symbol := symbol st; maxSupply := maxSupply st;
     mintedSupply := mintedSupply st; initialPriceWei := initialPriceWei st;
     creator := creator st; ledger := ledger st; events := events st ++ [ev] |}.

(** Storage once the base constructor [ERC7984(name_, symbol_, "")] has
    run and before the body of [GenesisToken]'s constructor: every field
    of the contract itself is still zero. *)
Definition after_base_constructor (name_ symbol_ : string) : storage :=
  {| name := name_; symbol := symbol_; maxSupply := 0; mintedSupply := 0;
     initialPriceWei := 0; creator := 0; ledger := ledger_init; events := [] |}.

Definition constructor_body (name_ symbol_ : string)
    (maxSupply_ initialPriceWei_ : N) (creator_ : address) : Exec storage unit :=
  (require (0 <? N.of_nat (String.length name_)) "Name required" ;;
   require (0 <? N.of_nat (String.length symbol_)) "Symbol required" ;;
   require (0 <? maxSupply_) "Max supply required" ;;
   modify (set_maxSupply maxSupply_) ;;
   modify (set_initialPriceWei initialPriceWei_) ;;
   modify (set_creator creator_))%exec.

(** [new GenesisToken(...)]: the storage of the created contract, or the
    constructor's failure. *)
Definition constructor (name_ symbol_ : string)
    (maxSupply_ initialPriceWei_ : N) (creator_ : address) : error + storage :=
  match constructor_body name_ symbol_ maxSupply_ initialPriceWei_ creator_
          (after_base_constructor name_ symbol_) with
  | Ok _ st => inr st
  | Err e => inl e
  end.

(** [function mint(address to, uint64 amount) external]; [sender] is
    [msg.sender]. *)
Definition mint (sender to : address) (amount : N) : Exec storage unit :=
  (require (0 <? amount) "Amount required" ;;
   minted ← gets mintedSupply ;
   newSupply ← checked_add minted amount ;
   cap_ ← gets maxSupply ;
   require (newSupply <=? cap_) "Exceeds supply" ;;
   modify (set_mintedSupply (to_uint64 newSupply)) ;;
   encryptedAmount ← from_capability (asEuint64 amount) ;
   balances ← gets ledger ;
   balances' ← from_capability (_mint balances to encryptedAmount) ;
   modify (set_ledger balances') ;;
   modify (emit {| minter := sender; recipient := to; amount := amount |}))%exec.

(** [function details() external view]. *)
Definition details : Exec storage (string * string * N * N * N * address) :=
  (st ← get ;
   ret (name st, symbol st, maxSupply st, mintedSupply st,
        initialPriceWei st, creator st))%exec.

(** The data model's invariant on a token's storage: the cap is a
    [uint64] and the counter is within it. *)
Definition well_formed (st : storage) : Prop :=
  is_uint64 (maxSupply st) /\ mintedSupply st <= maxSupply st.

(** A sequence of [mint] transactions on one token, with the storage
    before and after each of them. *)
Record MintCall : Type := {
  call_sender : address;
  call_to : address;
  call_amount : N
}.

Record MintStep : Type := {
  before : storage;
  call : MintCall;
  returned : outcome unit;
  after : storage
}.

Definition mint_tx (c : MintCall) (st : storage) : outcome unit * storage :=
  transact (mint (call_sender c) (call_to c) (call_amount c)) st.

Fixpoint mint_trace (calls : list MintCall) (st : storage) : list MintStep :=
  match calls with
  | [] => []
  | c :: calls' =>
      let r := mint_tx c st in
      {| before := st; call := c; returned := fst r; after := snd r |}
        :: mint_trace calls' (snd r)
  end.

(** What the design asks of one step of such a sequence: the invariant
    holds afterwards, the counter has not gone down, the cap has not
    moved, and a call that would take the counter past the cap fails with
    [SupplyExceeded] and changes nothing. *)
Definition step_ok (s : MintStep) : Prop :=
  well_formed (after s) /\
  mintedSupply (before s) <= mintedSupply (after s) /\
  maxSupply (after s) = maxSupply (before s) /\
  (maxSupply (before s) < mintedSupply (before s) + call_amount (call s) ->
   failed_with SupplyExceeded (returned s) /\ after s = before s).

End Contract.
End GenesisToken.

(** ** contract GenesisTokenFactory *)
Module GenesisTokenFactory.
Section Contract.
Context `{cap : ConfidentialCapability} `{dep : Deployer}.

Record TokenMetadata : Type := {
  token : address;
  name : string;
  symbol : string;
  maxSupply : N;
  mintedSupply : N;
  initialPriceWei : N;
  creator : address
}.

Record TokenCreated : Type := {
  ev_token : address;
  ev_creator : address;
  ev_name : string;
  ev_symbol : string;
  ev_maxSupply : N;
  ev_initialPriceWei : N
}.

(** The factory's storage together with the part of the chain its code
    reaches: the token contracts that exist. *)
Record world : Type := {
  _tokens : list TokenMetadata;
  deployed : gmap address GenesisToken.storage;
  created : list TokenCreated
}.

(** A factory that has just been deployed. *)
Definition genesis : world :=
  {| _tokens := []; deployed := ∅; created := [] |}.

Definition push (r : TokenMetadata) (w : world) : world :=
  {| _tokens := _tokens w ++ [r];
     deployed := deployed w; created := created w |}.

Definition emit (ev : TokenCreated) (w : world) : world :=
  {| _tokens := _tokens w;
     deployed := deployed w; created := created w ++ [ev] |}.

(** The token contract at address [a] gets storage [t]. *)
Definition install (a : address) (t : GenesisToken.storage) (w : world) : world :=
  {| _tokens := _tokens w;
     deployed := <[a := t]> (deployed w); created := created w |}.

(** [new GenesisToken(...)] run by the factory. *)
Definition new_GenesisToken (name_ symbol_ : string)
    (maxSupply_ initialPriceWei_ : N) (creator_ : address) : Exec world address :=
  (w ← get ;
   let a := create_address (dom (deployed w)) in
   match GenesisToken.constructor name_ symbol_ maxSupply_
           initialPriceWei_ creator_ with
   | inl e => throw e
   | inr t => modify (install a t) ;; ret a
   end)%exec.

(** [function createToken(...) external returns (address)]. *)
Definition createToken (sender : address) (name_ symbol_ : string)
    (maxSupply_ initialPriceWei_ : N) : Exec world address :=
  (token_ ← new_GenesisToken name_ symbol_ maxSupply_ initialPriceWei_ sender ;
   modify (push {| token := token_; name := name_; symbol := symbol_;
                   maxSupply := maxSupply_; mintedSupply := 0;
                   initialPriceWei := initialPriceWei_; creator := sender |}) ;;
   modify (emit {| ev_token := token_; ev_creator := sender; ev_name := name_;
                   ev_symbol := symbol_; ev_maxSupply := maxSupply_;
                   ev_initialPriceWei := initialPriceWei_ |}) ;;
   ret token_)%exec.

(** The external view call [GenesisToken(a).mintedSupply()]. *)
Definition call_mintedSupply (a : address) : Exec world N :=
  (w ← get ;
   match deployed w !! a with
   | Some t => ret (GenesisToken.mintedSupply t)
   | None => throw CallToNonContract
   end)%exec.

(** The record [getTokens] and [getToken] build from a stored record and
    the supply they have just read. *)
Definition merged (stored : TokenMetadata) (mintedSupply_ : N) : TokenMetadata :=
  {| token := token stored; name := name stored; symbol := symbol stored;
     maxSupply := maxSupply stored; mintedSupply := mintedSupply_;
     initialPriceWei := initialPriceWei stored; creator := creator stored |}.

(** An element of [new TokenMetadata[](length)]. *)
Definition zero_metadata : TokenMetadata :=
  {| token := 0; name := ""; symbol := ""; maxSupply := 0; mintedSupply := 0;
     initialPriceWei := 0; creator := 0 |}.

(** Checked write [arr[i] = v] to a memory array. *)
Definition array_store {A} (arr : list A) (i : N) (v : A) : Exec world (list A) :=
  if i <? N.of_nat (length arr) then ret (<[N.to_nat i := v]> arr)
  else throw (Panic 50).

(** The loop of [getTokens], [for (i = 0; i < length; i++)], by the number
    of iterations left ([length - i]).  [i] stays below [length], a
    [uint256], so its increment cannot overflow. *)
Fixpoint getTokens_loop (left : nat) (i : N) (list_ : list TokenMetadata)
    : Exec world (list TokenMetadata) :=
  match left with
  | O => ret list_
  | S left' =>
      (arr ← gets _tokens ;
       stored ← array_at arr i ;
       mintedSupply_ ← call_mintedSupply (token stored) ;
       list_' ← array_store list_ i (merged stored mintedSupply_) ;
       getTokens_loop left' (i + 1) list_')%exec
  end.

(** [function getTokens() external view]. *)
Definition getTokens : Exec world (list TokenMetadata) :=
  (length_ ← gets (fun w => length (_tokens w)) ;
   getTokens_loop length_ 0 (replicate length_ zero_metadata))%exec.

(** [function getToken(uint256 index) external view]. *)
Definition getToken (index : N) : Exec world TokenMetadata :=
  (arr ← gets _tokens ;
   tokenData ← array_at arr index ;
   mintedSupply_ ← call_mintedSupply (token tokenData) ;
   ret (merged tokenData mintedSupply_))%exec.

(** [function tokenCount() external view]. *)
Definition tokenCount : Exec world N :=
  gets (fun w => N.of_nat (length (_tokens w))).

(** A call of [mint] on the token contract at address [a], made directly
    by [sender] and seen from the chain: the token's storage is the only
    thing it writes. *)
Definition call_mint (a sender to : address) (amount : N) : Exec world unit :=
  (w ← get ;
   match deployed w !! a with
   | None => throw CallToNonContract
   | Some t =>
       match GenesisToken.mint sender to amount t with
       | Ok _ t' => modify (install a t')
       | Err e => throw e
       end
   end)%exec.

(** Every stored record points at a token contract that exists. *)
Definition records_deployed (w : world) : Prop :=
  Forall (fun r => is_Some (deployed w !! token r)) (_tokens w).

(** The chain states a factory and its tokens can be in: the factory is
    deployed, then anyone creates tokens through it and anyone mints on
    any address, with arguments of the types the ABI gives them. *)
Inductive reachable : world -> Prop :=
| reachable_genesis : reachable genesis
| reachable_createToken w sender name_ symbol_ maxSupply_ initialPriceWei_ :
    reachable w ->
    is_uint64 maxSupply_ ->
    reachable
      (snd (transact (createToken sender name_ symbol_ maxSupply_ initialPriceWei_) w))
| reachable_mint w a sender to amount :
    reachable w ->
    is_uint64 amount ->
    reachable (snd (transact (call_mint a sender to amount) w)).

(** The record [createToken] appends for a token created at [a]. *)
Definition new_record (a sender : address) (name_ symbol_ : string)
    (maxSupply_ initialPriceWei_ : N) : TokenMetadata :=
  {| token := a; name := name_; symbol := symbol_; maxSupply := maxSupply_;
     mintedSupply := 0; initialPriceWei := initialPriceWei_; creator := sender |}.

(** A stored record as a read presents it: [merged] with the counter of
    the token contract the record points at. *)
Definition live_record (w : world) (stored : TokenMetadata) : TokenMetadata :=
  merged stored
    (from_option GenesisToken.mintedSupply 0 (deployed w !! token stored)).

(** [out] is [stored] with its [mintedSupply] replaced by the counter of
    the token contract the record points at. *)
Definition live_merge_of (w : world) (stored out : TokenMetadata) : Prop :=
  exists t, deployed w !! token stored = Some t /\
    token out = token stored /\ name out = name stored /\
    symbol out = symbol stored /\ maxSupply out = maxSupply stored /\
    mintedSupply out = GenesisToken.mintedSupply t /\
    initialPriceWei out = initialPriceWei stored /\
    creator out = creator stored.

End Contract.
End GenesisTokenFactory.

(** ** Sequences of mints and the event log *)
Module MintLog.
Section Log.
Context `{cap : ConfidentialCapability}.
Import GenesisToken.

(** The storage a sequence of [mint] transactions leaves. *)
Definition run_mints (calls : list MintCall) (st : storage) : storage :=
  foldl (fun s c => snd (mint_tx c s)) st calls.

(** The calls of a sequence that succeed, in order. *)
Fixpoint accepted (calls : list MintCall) (st : storage) : list MintCall :=
  match calls with
  | [] => []
  | c :: calls' =>
      if succeeded (fst (mint_tx c st))
      then c :: accepted calls' (snd (mint_tx c st))
      else accepted calls' (snd (mint_tx c st))
  end.

(** The event [emit Minted(msg.sender, to, amount)] of a call. *)
Definition minted_event (c : MintCall) : Minted :=
  {| minter := call_sender c; recipient := call_to c; amount := call_amount c |}.

Definition total_amount (calls : list MintCall) : N :=
  foldr (fun c acc => call_amount c + acc) 0 calls.

Definition logged_amount (st : storage) : N :=
  foldr (fun ev acc => amount ev + acc) 0 (events st).

End Log.
End MintLog.

(** ** What the registry and the tokens agree on *)
Module Registry.
Section Agreement.
Context `{cap : ConfidentialCapability} `{dep : Deployer}.
Import GenesisTokenFactory.

(** A stored record carries the constructor arguments of the token it
    points at. *)
Definition describes (r : TokenMetadata) (t : GenesisToken.storage) : Prop :=
  GenesisToken.name t = name r /\
  GenesisToken.symbol t = symbol r /\
  GenesisToken.maxSupply t = maxSupply r /\
  GenesisToken.initialPriceWei t = initialPriceWei r /\
  GenesisToken.creator t = creator r.

Definition consistent (w : world) : Prop :=
  Forall (fun r => mintedSupply r = 0 /\
                   exists t, deployed w !! token r = Some t /\ describes r t)
         (_tokens w).

(** The event [createToken] emits for the record it stores. *)
Definition creation_event (r : TokenMetadata) : TokenCreated :=
  {| ev_token := token r; ev_creator := creator r; ev_name := name r;
     ev_symbol := symbol r; ev_maxSupply := maxSupply r;
     ev_initialPriceWei := initialPriceWei r |}.

(** The tuple [details()] would return for the values of a record. *)
Definition details_of (r : TokenMetadata)
    : string * string * N * N * N * address :=
  (name r, symbol r, maxSupply r, mintedSupply r, initialPriceWei r, creator r).

End Agreement.
End Registry.

(** ** The GenesisPad page: what its handlers decide

    The handlers of the React component, as functions of the component's
    state.  [String.prototype.trim], [BigInt] and [ethers.parseEther] are
    taken as given; of [BigInt] the model uses only that it reads a string
    of decimal digits (the empty one included) as its value. *)
Module GenesisPad.

Definition is_digit (c : ascii) : bool :=
  (48 <=? N_of_ascii c) && (N_of_ascii c <=? 57).

(** [/^\d*$/.test(value)]. *)
Fixpoint digits_only (value : string) : bool :=
  match value with
  | EmptyString => true
  | String c rest => is_digit c && digits_only rest
  end.

Fixpoint decimal_from (acc : N) (digits : string) : N :=
  match digits with
  | EmptyString => acc
  | String c rest => decimal_from (10 * acc + (N_of_ascii c - 48)) rest
  end.

Definition decimal_value (digits : string) : N := decimal_from 0 digits.

(** [s || fallback] on strings: the empty string is the only falsy one. *)
Definition or_else (s fallback : string) : string :=
  if String.eqb s "" then fallback else s.

Record FormState : Type := {
  name : string;
  symbol : string;
  supply : string;
  price : string
}.

(** [useState<FormState>] starts with four empty fields. *)
Definition empty_form : FormState :=
  {| name := ""; symbol := ""; supply := ""; price := "" |}.

(** The [onChange] handlers of the four inputs of the creation form. *)
Inductive FormChange : Type :=
| ChangeName (value : string)
| ChangeSymbol (value : string)
| ChangeSupply (value : string)
| ChangePrice (value : string).

Definition onChange (e : FormChange) (formState : FormState) : FormState :=
  match e with
  | ChangeName value =>
      {| name := value; symbol := symbol formState;
         supply := supply formState; price := price formState |}
  | ChangeSymbol value =>
      {| name := name formState; symbol := value;
         supply := supply formState; price := price formState |}
  | ChangeSupply value =>
      if digits_only value
      then {| name := name formState; symbol := symbol formState;
              supply := value; price := price formState |}
      else formState
  | ChangePrice value =>
      {| name := name formState; symbol := symbol formState;
         supply := supply formState; price := value |}
  end.


(** What the page knows of the wallet: [isConnected], whether [signer]
    is defined, whether [FACTORY_ADDRESS] is set, the connected [address]
    if any, and the address the signer would report. *)
Record Wallet : Type := {
  isConnected : bool;
  signer : bool;
  factoryConfigured : bool;
  account : option string;
  signerAddress : string
}.

(** The contract call a handler sends. *)
Inductive Call : Type :=
| CallCreateToken (name_ symbol_ : string) (maxSupply_ initialPriceWei_ : Z)
| CallMint (token recipient : string) (amount : Z).

(** How a handler ends before any transaction result comes back: with
    the message it passes to [setErrorMessage], with an exception out of
    a parse, or with the call it sends. *)
Inductive Handled : Type :=
| ErrorMessage (message : string)
| Throws
| Sends (call : Call).

Section Handlers.
Variable trim : string -> string.
Variable BigInt : string -> option Z.
Variable parseEther : string -> option Z.

Definition handleCreateToken (wallet : Wallet) (formState : FormState) : Handled :=
  if negb (isConnected wallet)
  then ErrorMessage "Connect your wallet to create a token."
  else if negb (factoryConfigured wallet)
  then ErrorMessage
         "Factory address is not set. Deploy to Sepolia and update the config to continue."
  else if negb (signer wallet)
  then ErrorMessage "Signer unavailable. Please reconnect your wallet."
  else
    let trimmedName := trim (name formState) in
    let trimmedSymbol := trim (symbol formState) in
    if String.eqb trimmedName "" || String.eqb trimmedSymbol ""
    then ErrorMessage "Name and symbol are required."
    else
      match BigInt (or_else (supply formState) "0") with
      | None => Throws
      | Some maxSupply =>
          if (maxSupply <=? 0)%Z
          then ErrorMessage "Total supply must be greater than zero."
          else
            match parseEther (or_else (price formState) "0") with
            | None => Throws
            | Some initialPriceWei =>
                Sends (CallCreateToken trimmedName trimmedSymbol
                         maxSupply initialPriceWei)
            end
      end.


End Handlers.

(** The token card: [remaining = token.maxSupply - token.mintedSupply] on
    bigints, the [disabled] attribute of the mint button and its label. *)
Definition remaining (token : GenesisTokenFactory.TokenMetadata) : Z :=
  (Z.of_N (GenesisTokenFactory.maxSupply token)
   - Z.of_N (GenesisTokenFactory.mintedSupply token))%Z.

Definition mint_disabled (wallet : Wallet)
    (token : GenesisTokenFactory.TokenMetadata) : bool :=
  negb (isConnected wallet) || (remaining token =? 0)%Z.

Definition mint_label (token : GenesisTokenFactory.TokenMetadata) : string :=
  if (remaining token =? 0)%Z then "Sold out" else "Mint free".

(** The creation form after a sequence of edits of its inputs, from the
    empty form, and [mintInputs] after a sequence of edits of the amount
    boxes (token address, text), from [{}]. *)
Definition form_after (changes : list FormChange) : FormState :=
  foldl (fun formState e => onChange e formState) empty_form changes.


End GenesisPad.

(** ** A capability and a deployer to run the model with

    Balances in the clear, a credit that refuses the zero address, and
    addresses handed out in increasing order. *)
Module Reference.

Definition credit (balances : gmap address N) (to : address) (v : N)
    : option (gmap address N) :=
  if to =? 0 then None
  else Some (<[to := default 0 (balances !! to) + v]> balances).

#[export] Instance clear_capability : ConfidentialCapability :=
  {| euint64 := N; Ledger := gmap address N; ledger_init := ∅;
     asEuint64 := Some; _mint := credit |}.

Definition next_address (used : gset address) : address :=
  1 + foldr N.max 0 (elements used).

#[export] Instance counting_deployer : Deployer.
Proof.
  refine {| create_address := next_address |}.
  intros used Hin. apply elem_of_elements in Hin.
  unfold next_address in Hin.
  assert (Hle : forall l (x : N), x ∈ l -> x <= foldr N.max 0 l).
  { clear. induction l as [|y l IH]; intros x Hx.
    - inversion Hx.
    - apply elem_of_cons in Hx as [->|Hx]; cbn [foldr].
      + apply N.le_max_l.
      + etransitivity; [exact (IH x Hx)|apply N.le_max_r]. }
  apply Hle in Hin. eapply N.nle_succ_diag_l.
  rewrite <- N.add_1_l. exact Hin.
Defined.

(** The token of the repository's test suite and the scenario of the
    design document: "Genesis USD", cap 1,000,000, price 0.05 ether. *)
Definition alice : address := 10.
Definition bob : address := 11.

Definition gusd_created : outcome address * GenesisTokenFactory.world :=
  transact (GenesisTokenFactory.createToken alice "Genesis USD" "gUSD"
              1000000 50000000000000000) GenesisTokenFactory.genesis.

Definition gusd_world : GenesisTokenFactory.world := snd gusd_created.

(** A second token is created by [bob], then [bob] mints 5 units of the
    first one. *)
Definition busy_world : GenesisTokenFactory.world :=
  snd (transact (GenesisTokenFactory.call_mint 1 bob bob 5)
         (snd (transact (GenesisTokenFactory.createToken bob "Second" "SND" 10 0)
                 gusd_world))).

(** A token two units below a cap that is the largest [uint64]. *)
Definition near_limit : GenesisToken.storage :=
  {| GenesisToken.name := "Limit"; GenesisToken.symbol := "LMT";
     GenesisToken.maxSupply := 18446744073709551615;
     GenesisToken.mintedSupply := 18446744073709551613;
     GenesisToken.initialPriceWei := 0;
     GenesisToken.creator := alice; GenesisToken.ledger := ∅;
     GenesisToken.events := [] |}.

Definition scenario_calls : list GenesisToken.MintCall :=
  [ {| GenesisToken.call_sender := bob; GenesisToken.call_to := bob;
       GenesisToken.call_amount := 5 |};
    {| GenesisToken.call_sender := bob; GenesisToken.call_to := bob;
       GenesisToken.call_amount := 999995 |};
    {| GenesisToken.call_sender := bob; GenesisToken.call_to := bob;
       GenesisToken.call_amount := 1 |} ].

Definition gusd : GenesisToken.storage :=
  {| GenesisToken.name := "Genesis USD"; GenesisToken.symbol := "gUSD";
     GenesisToken.maxSupply := 1000000; GenesisToken.mintedSupply := 0;
     GenesisToken.initialPriceWei := 50000000000000000;
     GenesisToken.creator := alice; GenesisToken.ledger := ∅;
     GenesisToken.events := [] |}.

End Reference.

(** ** Parsers and a wallet to run the page's handlers with

    A [trim] for ASCII spaces, a [BigInt] and a [parseEther] for strings
    of decimal digits. *)
Module ReferencePage.

Fixpoint drop_leading_spaces (s : string) : string :=
  match s with
  | String c rest => if Ascii.eqb c " " then drop_leading_spaces rest else s
  | EmptyString => s
  end.

Definition reverse (s : string) : string :=
  string_of_list_ascii (rev (list_ascii_of_string s)).

Definition trim (s : string) : string :=
  reverse (drop_leading_spaces (reverse (drop_leading_spaces s))).

Definition BigInt (s : string) : option Z :=
  if GenesisPad.digits_only s
  then Some (Z.of_N (GenesisPad.decimal_value s))
  else None.

Definition parseEther (s : string) : option Z :=
  if GenesisPad.digits_only s && negb (String.eqb s "")
  then Some (Z.of_N (GenesisPad.decimal_value s) * 10 ^ 18)%Z
  else None.

Definition connected : GenesisPad.Wallet :=
  {| GenesisPad.isConnected := true; GenesisPad.signer := true;
     GenesisPad.factoryConfigured := true;
     GenesisPad.account := Some "0xb0b"; GenesisPad.signerAddress := "0xb0b" |}.

Definition typed_form : list GenesisPad.FormChange :=
  [ GenesisPad.ChangeName " Genesis USD "; GenesisPad.ChangeSymbol "gUSD";
    GenesisPad.ChangeSupply "1000000"; GenesisPad.ChangeSupply "10x";
    GenesisPad.ChangePrice "5" ].


End ReferencePage.

(** * Properties of GenesisToken *)
Section TokenProperties.
Context `{cap : ConfidentialCapability}.
Import GenesisToken.

(** What [mint] computes, with the monad unfolded: the two [require]s and
    the checked addition come before any write. *)
Lemma mint_unfold (sender to : address) (amount : N) (st : storage) :
  mint sender to amount st =
  if 0 <? amount then
    if mintedSupply st + amount <? uint256_bound then
      if mintedSupply st + amount <=? maxSupply st then
        match asEuint64 amount with
        | None => Err CapabilityFailure
        | Some v =>
            match _mint (ledger st) to v with
            | None => Err CapabilityFailure
            | Some balances' =>
                Ok tt (emit {| minter := sender; recipient := to; amount := amount |}
                         (set_ledger balances'
                            (set_mintedSupply
                               (to_uint64 (mintedSupply st + amount)) st)))
            end
        end
      else Err (Revert "Exceeds supply")
    else Err (Panic 17)
  else Err (Revert "Amount required").
Proof.
  unfold mint, bind, require, checked_add, gets, modify, from_capability, ret, throw.
  destruct (0 <? amount); [|reflexivity].
  destruct (mintedSupply st + amount <? uint256_bound); [|reflexivity].
  destruct (mintedSupply st + amount <=? maxSupply st); [|reflexivity].
  destruct (asEuint64 amount) as [v|]; [|reflexivity]. cbn.
  destruct (_mint (ledger st) to v); reflexivity.
Qed.

Lemma uint64_below_uint256 (x : N) : x < uint64_bound -> x < uint256_bound.
Proof. unfold uint64_bound, uint256_bound. intros H.
  eapply N.lt_trans; [exact H|]. apply N.pow_lt_mono_r; lia. Qed.

Lemma uint64_sum_below_uint256 (a b : N) :
  a < uint64_bound -> b < uint64_bound -> a + b < uint256_bound.
Proof.
  unfold uint64_bound, uint256_bound. intros Ha Hb.
  assert (H : 2 ^ 64 + 2 ^ 64 <= 2 ^ 256).
  { change (2 ^ 64 + 2 ^ 64) with (2 ^ 65). apply N.pow_le_mono_r; lia. }
  lia.
Qed.

Lemma to_uint64_small (x : N) : x < uint64_bound -> to_uint64 x = x.
Proof. intros H. unfold to_uint64. apply N.mod_small. exact H. Qed.

(** A [mint] transaction either reverts and leaves the storage as it was,
    or passes both checks and the capability, and writes the new supply,
    the credited ledger and the event. *)
Lemma mint_transact_cases (sender to : address) (amount : N) (st : storage) :
  (exists e, transact (mint sender to amount) st = (Reverted e, st)) \/
  (exists v balances',
      0 < amount /\ mintedSupply st + amount <= maxSupply st /\
      asEuint64 amount = Some v /\ _mint (ledger st) to v = Some balances' /\
      transact (mint sender to amount) st =
        (Success tt,
         emit {| minter := sender; recipient := to; amount := amount |}
           (set_ledger balances'
              (set_mintedSupply (to_uint64 (mintedSupply st + amount)) st)))).
Proof.
  unfold transact. rewrite mint_unfold.
  destruct (0 <? amount) eqn:Hpos; [|left; eauto].
  destruct (mintedSupply st + amount <? uint256_bound); [|left; eauto].
  destruct (mintedSupply st + amount <=? maxSupply st) eqn:Hcap; [|left; eauto].
  destruct (asEuint64 amount) as [v|] eqn:Henc; [|left; eauto].
  destruct (_mint (ledger st) to v) as [balances'|] eqn:Hcredit; [|left; eauto].
  right. exists v, balances'.
  apply N.ltb_lt in Hpos. apply N.leb_le in Hcap. auto.
Qed.

Lemma mint_zero_amount (sender to : address) (st : storage) :
  transact (mint sender to 0) st = (Reverted (Revert "Amount required"), st).
Proof. unfold transact. rewrite mint_unfold. reflexivity. Qed.

Lemma mint_over_cap (sender to : address) (amount : N) (st : storage) :
  0 < amount ->
  mintedSupply st + amount < uint256_bound ->
  maxSupply st < mintedSupply st + amount ->
  transact (mint sender to amount) st = (Reverted (Revert "Exceeds supply"), st).
Proof.
  intros Hpos Hwide Hover. unfold transact. rewrite mint_unfold.
  apply N.ltb_lt in Hpos, Hwide. rewrite Hpos, Hwide.
  apply N.leb_gt in Hover. rewrite Hover. reflexivity.
Qed.

Lemma mint_within_cap (sender to : address) (amount : N) (st : storage)
    (v : euint64) (balances' : Ledger) :
  0 < amount ->
  mintedSupply st + amount <= maxSupply st ->
  is_uint64 (maxSupply st) ->
  asEuint64 amount = Some v ->
  _mint (ledger st) to v = Some balances' ->
  transact (mint sender to amount) st =
    (Success tt,
     emit {| minter := sender; recipient := to; amount := amount |}
       (set_ledger balances' (set_mintedSupply (mintedSupply st + amount) st))).
Proof.
  intros Hpos Hcap Hmax Henc Hcredit. unfold transact. rewrite mint_unfold.
  assert (Hsum : mintedSupply st + amount < uint64_bound)
    by (unfold is_uint64 in Hmax; lia).
  pose proof (uint64_below_uint256 _ Hsum) as Hwide.
  apply N.ltb_lt in Hpos, Hwide. rewrite Hpos, Hwide.
  apply N.leb_le in Hcap. rewrite Hcap, Henc, Hcredit.
  rewrite (to_uint64_small _ Hsum). reflexivity.
Qed.

Lemma mint_reverts_when_capability_fails (sender to : address) (amount : N) (st : storage) :
  asEuint64 amount = None \/
  (exists v, asEuint64 amount = Some v /\ _mint (ledger st) to v = None) ->
  exists e, transact (mint sender to amount) st = (Reverted e, st).
Proof.
  intros Hfail. destruct (mint_transact_cases sender to amount st)
    as [Hrev|(v & l' & _ & _ & Henc & Hcredit & _)]; [exact Hrev|].
  destruct Hfail as [Hnone|(v' & Henc' & Hnone)]; congruence.
Qed.

(** The constructor establishes the invariant, with nothing minted. *)
Lemma constructor_well_formed (name_ symbol_ : string)
    (maxSupply_ initialPriceWei_ : N) (creator_ : address) (st : storage) :
  is_uint64 maxSupply_ ->
  constructor name_ symbol_ maxSupply_ initialPriceWei_ creator_ = inr st ->
  well_formed st /\ mintedSupply st = 0 /\ maxSupply st = maxSupply_.
Proof.
  intros Hmax. unfold constructor, constructor_body, bind, require, modify, ret, throw.
  destruct (0 <? N.of_nat (String.length name_)); [|discriminate].
  destruct (0 <? N.of_nat (String.length symbol_)); [|discriminate].
  destruct (0 <? maxSupply_); [|discriminate].
  intros [= <-]. unfold well_formed. cbn. repeat split; [exact Hmax|lia].
Qed.

Lemma mint_tx_step_ok (c : MintCall) (st : storage) :
  well_formed st -> is_uint64 (call_amount c) ->
  step_ok {| before := st; call := c;
             returned := fst (mint_tx c st); after := snd (mint_tx c st) |}.
Proof.
  intros [Hmax Hinv] Hamt. unfold step_ok, mint_tx. cbn [before after call returned].
  destruct (mint_transact_cases (call_sender c) (call_to c) (call_amount c) st)
    as [[e He]|(v & l' & Hpos & Hcap & _ & _ & Hok)].
  - rewrite He. cbn [fst snd].
    split; [split; assumption|]. split; [lia|]. split; [reflexivity|].
    intros Hover. unfold is_uint64 in *.
    rewrite mint_over_cap in He.
    + injection He as <-. split; [|reflexivity].
      exists (Revert "Exceeds supply"). split; reflexivity.
    + lia.
    + apply uint64_sum_below_uint256; lia.
    + exact Hover.
  - rewrite Hok. cbn [fst snd]. unfold is_uint64 in *.
    rewrite to_uint64_small by lia. unfold well_formed, is_uint64. cbn.
    split; [split; [exact Hmax|exact Hcap]|]. split; [lia|]. split; [reflexivity|].
    intros Hover. lia.
Qed.

(** C1. Along every sequence of [mint] transactions on a token whose
    storage satisfies the invariant, every step leaves the invariant
    [mintedSupply <= maxSupply] in place, never lowers [mintedSupply], and
    a call that would take [mintedSupply] past [maxSupply] fails with
    [SupplyExceeded] and leaves the storage as it was. *)
Theorem mint_sequence_supply_within_cap (st : storage) (calls : list MintCall) :
  well_formed st ->
  Forall (fun c => is_uint64 (call_amount c)) calls ->
  Forall step_ok (mint_trace calls st).
Proof.
  intros Hwf Hcalls. revert st Hwf.
  induction Hcalls as [|c calls Hc _ IH]; intros st Hwf; cbn [mint_trace].
  - constructor.
  - pose proof (mint_tx_step_ok c st Hwf Hc) as Hstep.
    constructor; [exact Hstep|].
    apply IH. destruct Hstep as [Hafter _]. exact Hafter.
Qed.

(** C2. On a well-formed token and a [uint64] amount, [mint] fails with
    [InvalidArgument] exactly when [amount = 0], fails with
    [SupplyExceeded] exactly when [mintedSupply + amount <= maxSupply]
    does not hold, and in both cases the whole storage (counter and
    ledger included) is what it was before the call. *)
Theorem mint_failure_kinds (sender to : address) (amount : N) (st : storage) :
  well_formed st ->
  is_uint64 amount ->
  (failed_with InvalidArgument (fst (transact (mint sender to amount) st))
     <-> amount = 0) /\
  (failed_with SupplyExceeded (fst (transact (mint sender to amount) st))
     <-> ~ mintedSupply st + amount <= maxSupply st) /\
  (failed_with InvalidArgument (fst (transact (mint sender to amount) st)) \/
   failed_with SupplyExceeded (fst (transact (mint sender to amount) st)) ->
   snd (transact (mint sender to amount) st) = st).
Proof.
  intros [Hmax Hinv] Hamt. unfold is_uint64 in *.
  destruct (N.eq_dec amount 0) as [->|Hnz].
  - rewrite mint_zero_amount. cbn [fst snd]. split; [|split].
    + split; [reflexivity|]. intros _.
      exists (Revert "Amount required"). split; reflexivity.
    + split.
      * intros (e & [= <-] & Hk). discriminate Hk.
      * intros Hover. exfalso. apply Hover. lia.
    + reflexivity.
  - destruct (N.lt_ge_cases (maxSupply st) (mintedSupply st + amount)) as [Hover|Hcap].
    + rewrite mint_over_cap; [|lia|apply uint64_sum_below_uint256; lia|exact Hover].
      cbn [fst snd]. split; [|split].
      * split; [|intros ->; congruence].
        intros (e & [= <-] & Hk). discriminate Hk.
      * split; [intros _; lia|]. intros _.
        exists (Revert "Exceeds supply"). split; reflexivity.
      * reflexivity.
    + destruct (mint_transact_cases sender to amount st)
        as [[e He]|(v & l' & _ & _ & _ & _ & Hok)].
      * rewrite He. cbn [fst snd]. assert (He' := He).
        unfold transact in He'. rewrite mint_unfold in He'.
        assert (Hpos : (0 <? amount) = true) by (apply N.ltb_lt; lia).
        assert (Hwide : (mintedSupply st + amount <? uint256_bound) = true).
        { apply N.ltb_lt. apply uint64_sum_below_uint256; lia. }
        apply N.leb_le in Hcap. rewrite Hpos, Hwide, Hcap in He'.
        assert (Hcf : e = CapabilityFailure).
        { destruct (asEuint64 amount) as [v|]; [|congruence].
          destruct (_mint (ledger st) to v); congruence. }
        subst e. apply N.leb_le in Hcap. split; [|split].
        -- split; [|intros ->; congruence].
           intros (e & [= <-] & Hk). discriminate Hk.
        -- split; [|intros Hover; exfalso; apply Hover; exact Hcap].
           intros (e & [= <-] & Hk). discriminate Hk.
        -- reflexivity.
      * rewrite Hok. cbn [fst snd]. split; [|split].
        -- split; [|intros ->; congruence].
           intros (e & Habs & _). discriminate Habs.
        -- split; [|intros Hover; exfalso; apply Hover; exact Hcap].
           intros (e & Habs & _). discriminate Habs.
        -- intros [(e & Habs & _)|(e & Habs & _)]; discriminate Habs.
Qed.

(** C3, as amended. The cap check is made on the exact sum: for [uint64]
    values of [mintedSupply] and [amount], a mint whose exact sum
    [mintedSupply + amount] is above [maxSupply] fails with
    [SupplyExceeded] when [amount > 0] and never succeeds, also where the
    sum passes [2^64 - 1]; and when [amount > 0] and the confidential
    credit goes through, [mint] succeeds if and only if the exact sum is
    at most [maxSupply]. *)
Theorem mint_cap_check_exact (sender to : address) (amount : N) (st : storage) :
  is_uint64 (mintedSupply st) ->
  is_uint64 amount ->
  (maxSupply st < mintedSupply st + amount ->
   succeeded (fst (transact (mint sender to amount) st)) = false /\
   snd (transact (mint sender to amount) st) = st /\
   (0 < amount ->
    failed_with SupplyExceeded (fst (transact (mint sender to amount) st)))) /\
  (0 < amount ->
   forall v balances',
     asEuint64 amount = Some v ->
     _mint (ledger st) to v = Some balances' ->
     (succeeded (fst (transact (mint sender to amount) st)) = true
        <-> mintedSupply st + amount <= maxSupply st)).
Proof.
  intros Hms Hamt. unfold is_uint64 in *.
  pose proof (uint64_sum_below_uint256 _ _ Hms Hamt) as Hwide.
  split.
  - intros Hover. destruct (N.eq_dec amount 0) as [->|Hnz].
    + rewrite mint_zero_amount. cbn [fst snd]. repeat split. lia.
    + rewrite mint_over_cap; [|lia|exact Hwide|exact Hover]. cbn [fst snd].
      split; [reflexivity|]. split; [reflexivity|]. intros _.
      exists (Revert "Exceeds supply"). split; reflexivity.
  - intros Hpos v balances' Henc Hcredit.
    unfold transact. rewrite mint_unfold.
    apply N.ltb_lt in Hpos, Hwide. rewrite Hpos, Hwide, Henc, Hcredit.
    destruct (mintedSupply st + amount <=? maxSupply st) eqn:Hcap; cbn.
    + apply N.leb_le in Hcap. split; [intros _; exact Hcap|reflexivity].
    + apply N.leb_gt in Hcap. split; [discriminate|lia].
Qed.

(** C8. [mint] does not look at its caller beyond recording it in the
    event: for any two callers the transaction has the same outcome, the
    same resulting [mintedSupply] and the same resulting ledger; and a
    caller other than the creator mints successfully to any recipient the
    capability accepts, whenever the amount is positive and within the
    cap. *)
Theorem mint_is_unauthenticated (caller1 caller2 to : address) (amount : N)
    (st : storage) :
  fst (transact (mint caller1 to amount) st)
    = fst (transact (mint caller2 to amount) st) /\
  mintedSupply (snd (transact (mint caller1 to amount) st))
    = mintedSupply (snd (transact (mint caller2 to amount) st)) /\
  ledger (snd (transact (mint caller1 to amount) st))
    = ledger (snd (transact (mint caller2 to amount) st)) /\
  (caller1 <> creator st ->
   0 < amount ->
   mintedSupply st + amount <= maxSupply st ->
   is_uint64 (maxSupply st) ->
   forall v balances',
     asEuint64 amount = Some v ->
     _mint (ledger st) to v = Some balances' ->
     fst (transact (mint caller1 to amount) st) = Success tt /\
     mintedSupply (snd (transact (mint caller1 to amount) st))
       = mintedSupply st + amount).
Proof.
  split; [|split; [|split]].
  1-3: unfold transact; rewrite !mint_unfold;
    destruct (0 <? amount); [|reflexivity];
    destruct (mintedSupply st + amount <? uint256_bound); [|reflexivity];
    destruct (mintedSupply st + amount <=? maxSupply st); [|reflexivity];
    destruct (asEuint64 amount) as [v|]; [|reflexivity];
    destruct (_mint (ledger st) to v); reflexivity.
  intros _ Hpos Hcap Hmax v balances' Henc Hcredit.
  rewrite (mint_within_cap caller1 to amount st v balances'); auto.
Qed.

(** C9. When the confidential-computation capability fails inside a
    [mint] call (encoding the amount, or crediting the ledger), the call
    fails and the storage, [mintedSupply] included, is what it was (the
    code writes the counter first; the revert of the transaction undoes
    that write); and
    in every case the counter and the ledger move together: either the
    call succeeds, the counter is advanced and the ledger is the credited
    one, or the call fails and neither has changed. *)
Theorem mint_capability_failure_is_atomic (sender to : address) (amount : N)
    (st : storage) :
  (asEuint64 amount = None \/
   (exists v, asEuint64 amount = Some v /\ _mint (ledger st) to v = None) ->
   exists e, transact (mint sender to amount) st = (Reverted e, st)) /\
  ((exists e, transact (mint sender to amount) st = (Reverted e, st)) \/
   (exists v balances' st',
      transact (mint sender to amount) st = (Success tt, st') /\
      asEuint64 amount = Some v /\
      _mint (ledger st) to v = Some balances' /\
      ledger st' = balances' /\
      mintedSupply st' = to_uint64 (mintedSupply st + amount))).
Proof.
  split; [apply mint_reverts_when_capability_fails|].
  destruct (mint_transact_cases sender to amount st)
    as [Hrev|(v & l' & _ & _ & Henc & Hcredit & Hok)]; [left; exact Hrev|].
  right. exists v, l'. eexists. split; [exact Hok|]. auto.
Qed.

End TokenProperties.

(** ** The token properties on the reference capability *)

Lemma mint_sequence_supply_within_cap_witness :
  Forall GenesisToken.step_ok
    (GenesisToken.mint_trace Reference.scenario_calls Reference.gusd).
Proof.
  apply (mint_sequence_supply_within_cap Reference.gusd Reference.scenario_calls).
  - split; vm_compute; [reflexivity|discriminate].
  - repeat constructor.
Defined.

Lemma mint_failure_kinds_witness :
  GenesisToken.well_formed Reference.gusd /\ is_uint64 0 /\
  failed_with InvalidArgument
    (fst (transact (GenesisToken.mint Reference.bob Reference.bob 0) Reference.gusd)) /\
  snd (transact (GenesisToken.mint Reference.bob Reference.bob 0) Reference.gusd)
    = Reference.gusd.
Proof.
  assert (Hwf : GenesisToken.well_formed Reference.gusd)
    by (split; vm_compute; [reflexivity|discriminate]).
  assert (Hamt : is_uint64 0) by reflexivity.
  destruct (mint_failure_kinds Reference.bob Reference.bob 0 Reference.gusd Hwf Hamt)
    as (Hinvalid & _ & Hsame).
  split; [exact Hwf|]. split; [exact Hamt|].
  split; [apply Hinvalid; reflexivity|].
  apply Hsame. left. apply Hinvalid. reflexivity.
Defined.

(** C3 as the specification words it fails where [amount = 0]: the exact
    sum is within the cap and yet [mint] does not succeed. *)
Lemma mint_cap_check_iff_fails_on_zero_amount :
  ~ (succeeded
       (fst (transact (GenesisToken.mint Reference.bob Reference.bob 0) Reference.gusd))
     = true
     <-> GenesisToken.mintedSupply Reference.gusd + 0
           <= GenesisToken.maxSupply Reference.gusd).
Proof.
  intros [_ Hsucc].
  assert (Hin : GenesisToken.mintedSupply Reference.gusd + 0
                  <= GenesisToken.maxSupply Reference.gusd)
    by (vm_compute; discriminate).
  specialize (Hsucc Hin). vm_compute in Hsucc. discriminate Hsucc.
Qed.

Lemma mint_cap_check_exact_witness :
  is_uint64 (GenesisToken.mintedSupply Reference.near_limit) /\
  is_uint64 18446744073709551615 /\
  succeeded
    (fst (transact
            (GenesisToken.mint Reference.bob Reference.bob 18446744073709551615)
            Reference.near_limit)) = false /\
  (succeeded
     (fst (transact (GenesisToken.mint Reference.bob Reference.bob 2)
             Reference.near_limit)) = true
   <-> GenesisToken.mintedSupply Reference.near_limit + 2
         <= GenesisToken.maxSupply Reference.near_limit).
Proof.
  assert (Hms : is_uint64 (GenesisToken.mintedSupply Reference.near_limit))
    by reflexivity.
  assert (Hbig : is_uint64 18446744073709551615) by reflexivity.
  assert (Hsmall : is_uint64 2) by reflexivity.
  split; [exact Hms|]. split; [exact Hbig|]. split.
  - destruct (mint_cap_check_exact Reference.bob Reference.bob
                18446744073709551615 Reference.near_limit Hms Hbig) as [Hover _].
    apply Hover. reflexivity.
  - destruct (mint_cap_check_exact Reference.bob Reference.bob 2
                Reference.near_limit Hms Hsmall) as [_ Hiff].
    apply (Hiff eq_refl 2 {[ Reference.bob := 2 ]}); reflexivity.
Defined.

Lemma mint_is_unauthenticated_witness :
  Reference.bob <> GenesisToken.creator Reference.gusd /\
  fst (transact (GenesisToken.mint Reference.bob 77 5) Reference.gusd) = Success tt /\
  GenesisToken.mintedSupply
    (snd (transact (GenesisToken.mint Reference.bob 77 5) Reference.gusd)) = 5.
Proof.
  assert (Hother : Reference.bob <> GenesisToken.creator Reference.gusd)
    by (vm_compute; discriminate).
  split; [exact Hother|].
  destruct (mint_is_unauthenticated Reference.bob Reference.alice 77 5 Reference.gusd)
    as (_ & _ & _ & Hmint).
  apply (Hmint Hother eq_refl) with (v := 5) (balances' := {[ 77 := 5 ]}).
  - vm_compute. discriminate.
  - reflexivity.
  - reflexivity.
  - reflexivity.
Defined.

Lemma mint_capability_failure_is_atomic_witness :
  exists e,
    transact (GenesisToken.mint Reference.bob 0 5) Reference.gusd
      = (Reverted e, Reference.gusd).
Proof.
  destruct (mint_capability_failure_is_atomic Reference.bob 0 5 Reference.gusd)
    as [Hfail _].
  apply Hfail. right. exists 5. split; reflexivity.
Defined.

(** * Properties of GenesisTokenFactory *)
Section RegistryProperties.
Context `{cap : ConfidentialCapability} `{dep : Deployer}.
Import GenesisTokenFactory.

Lemma constructor_unfold (name_ symbol_ : string)
    (maxSupply_ initialPriceWei_ : N) (creator_ : address) :
  GenesisToken.constructor name_ symbol_ maxSupply_ initialPriceWei_ creator_ =
  if 0 <? N.of_nat (String.length name_) then
    if 0 <? N.of_nat (String.length symbol_) then
      if 0 <? maxSupply_ then
        inr {| GenesisToken.name := name_; GenesisToken.symbol := symbol_;
               GenesisToken.maxSupply := maxSupply_;
               GenesisToken.mintedSupply := 0;
               GenesisToken.initialPriceWei := initialPriceWei_;
               GenesisToken.creator := creator_;
               GenesisToken.ledger := ledger_init;
               GenesisToken.events := [] |}
      else inl (Revert "Max supply required")
    else inl (Revert "Symbol required")
  else inl (Revert "Name required").
Proof.
  unfold GenesisToken.constructor, GenesisToken.constructor_body,
    bind, require, modify, ret, throw.
  destruct (0 <? N.of_nat (String.length name_)); [|reflexivity].
  destruct (0 <? N.of_nat (String.length symbol_)); [|reflexivity].
  destruct (0 <? maxSupply_); reflexivity.
Qed.

Lemma length_positive (str : string) :
  (0 <? N.of_nat (String.length str)) = negb (String.eqb str "").
Proof. destruct str; reflexivity. Qed.

Lemma createToken_unfold (sender : address) (name_ symbol_ : string)
    (maxSupply_ initialPriceWei_ : N) (w : world) :
  createToken sender name_ symbol_ maxSupply_ initialPriceWei_ w =
  match GenesisToken.constructor name_ symbol_ maxSupply_ initialPriceWei_ sender with
  | inl e => Err e
  | inr t =>
      let a := create_address (dom (deployed w)) in
      Ok a (emit {| ev_token := a; ev_creator := sender; ev_name := name_;
                    ev_symbol := symbol_; ev_maxSupply := maxSupply_;
                    ev_initialPriceWei := initialPriceWei_ |}
              (push (new_record a sender name_ symbol_ maxSupply_ initialPriceWei_)
                 (install a t w)))
  end.
Proof.
  unfold createToken, new_GenesisToken, bind, get, modify, ret, throw.
  destruct (GenesisToken.constructor _ _ _ _ _); reflexivity.
Qed.

Lemma getToken_unfold (index : N) (w : world) :
  getToken index w =
  match _tokens w !! N.to_nat index with
  | None => Err (Panic 50)
  | Some stored =>
      match deployed w !! token stored with
      | None => Err CallToNonContract
      | Some t => Ok (merged stored (GenesisToken.mintedSupply t)) w
      end
  end.
Proof.
  unfold getToken, array_at, call_mintedSupply, bind, gets, get, ret, throw.
  destruct (_tokens w !! N.to_nat index) as [stored|]; [|reflexivity].
  destruct (deployed w !! token stored); reflexivity.
Qed.

Lemma records_deployed_lookup (w : world) (j : nat) (stored : TokenMetadata) :
  records_deployed w -> _tokens w !! j = Some stored ->
  exists t, deployed w !! token stored = Some t.
Proof.
  intros Hdep Hj. unfold records_deployed in Hdep.
  rewrite Forall_lookup in Hdep. exact (Hdep j stored Hj).
Qed.

Lemma live_record_deployed (w : world) (stored : TokenMetadata)
    (t : GenesisToken.storage) :
  deployed w !! token stored = Some t ->
  live_record w stored = merged stored (GenesisToken.mintedSupply t).
Proof. intros Ht. unfold live_record. rewrite Ht. reflexivity. Qed.

(** The loop of [getTokens] started at [i] with [left] iterations to go:
    it never fails on a registry whose records are deployed, it leaves the
    positions below [i] alone, and it fills every position from [i] on
    with the live view of the stored record. *)
Lemma getTokens_loop_spec (w : world) (left : nat) :
  records_deployed w ->
  forall (i : nat) (acc : list TokenMetadata),
    (i + left)%nat = length (_tokens w) ->
    length acc = length (_tokens w) ->
    exists out,
      getTokens_loop left (N.of_nat i) acc w = Ok out w /\
      length out = length acc /\
      (forall j, (j < i)%nat -> out !! j = acc !! j) /\
      (forall j stored, (i <= j)%nat -> _tokens w !! j = Some stored ->
         out !! j = Some (live_record w stored)).
Proof.
  intros Hdep. induction left as [|left IH]; intros i acc Hlen Hacc.
  - exists acc. cbn. split; [reflexivity|]. split; [reflexivity|].
    split; [reflexivity|]. intros j stored Hij Hj.
    apply lookup_lt_Some in Hj. lia.
  - cbn [getTokens_loop]. unfold bind, gets, array_at.
    rewrite Nat2N.id.
    destruct (_tokens w !! i) as [stored|] eqn:Hi;
      [|apply lookup_ge_None in Hi; lia].
    destruct (records_deployed_lookup w i stored Hdep Hi) as [t Ht].
    unfold ret at 1. unfold call_mintedSupply, bind, get. rewrite Ht.
    unfold ret at 1. unfold array_store.
    assert (Hin : (N.of_nat i <? N.of_nat (length acc)) = true)
      by (apply N.ltb_lt; lia).
    rewrite Hin. unfold ret at 1. rewrite Nat2N.id.
    replace (N.of_nat i + 1) with (N.of_nat (S i)) by lia.
    destruct (IH (S i) (<[i := merged stored (GenesisToken.mintedSupply t)]> acc))
      as (out & Hrun & Hlen' & Hlow & Hhigh).
    + lia.
    + rewrite length_insert. exact Hacc.
    + exists out. split; [exact Hrun|].
      rewrite length_insert in Hlen'. split; [exact Hlen'|]. split.
      * intros j Hj. rewrite Hlow by lia.
        apply list_lookup_insert_ne. lia.
      * intros j stored' Hij Hj.
        destruct (decide (j = i)) as [->|Hne].
        -- rewrite Hlow by lia. rewrite list_lookup_insert_eq by lia.
           assert (stored' = stored) by congruence. subst stored'.
           rewrite (live_record_deployed w stored t Ht). reflexivity.
        -- apply Hhigh; [lia|exact Hj].
Qed.

(** [getTokens] returns the live view of every stored record, in the
    order of the registry, and writes nothing. *)
Lemma getTokens_spec (w : world) :
  records_deployed w ->
  getTokens w = Ok (live_record w <$> _tokens w) w.
Proof.
  intros Hdep. unfold getTokens, bind, gets.
  destruct (getTokens_loop_spec w (length (_tokens w)) Hdep 0
              (replicate (length (_tokens w)) zero_metadata))
    as (out & Hrun & Hlen & _ & Hhigh).
  - reflexivity.
  - apply length_replicate.
  - change (N.of_nat 0) with 0 in Hrun. rewrite Hrun. f_equal.
    rewrite length_replicate in Hlen.
    apply list_eq. intros j. rewrite list_lookup_fmap.
    destruct (_tokens w !! j) as [stored|] eqn:Hj; cbn.
    + apply Hhigh; [lia|exact Hj].
    + apply lookup_ge_None. apply lookup_ge_None in Hj. lia.
Qed.

Lemma getToken_spec (index : N) (w : world) (stored : TokenMetadata) :
  records_deployed w ->
  _tokens w !! N.to_nat index = Some stored ->
  getToken index w = Ok (live_record w stored) w.
Proof.
  intros Hdep Hi. rewrite getToken_unfold, Hi.
  destruct (records_deployed_lookup w _ stored Hdep Hi) as [t Ht].
  rewrite Ht, (live_record_deployed w stored t Ht). reflexivity.
Qed.

Lemma getToken_out_of_range (index : N) (w : world) :
  N.of_nat (length (_tokens w)) <= index ->
  getToken index w = Err (Panic 50).
Proof.
  intros Hge. rewrite getToken_unfold.
  assert (Hnone : _tokens w !! N.to_nat index = None)
    by (apply lookup_ge_None; lia).
  rewrite Hnone. reflexivity.
Qed.

Lemma live_record_is_merge (w : world) (stored : TokenMetadata) :
  is_Some (deployed w !! token stored) ->
  live_merge_of w stored (live_record w stored).
Proof.
  intros [t Ht]. exists t. rewrite (live_record_deployed w stored t Ht).
  cbn. auto 10.
Qed.

(** *** The registry invariant along the life of a factory *)

Lemma genesis_records_deployed : records_deployed genesis.
Proof. constructor. Qed.

Lemma install_records_deployed (a : address) (t : GenesisToken.storage) (w : world) :
  records_deployed w -> records_deployed (install a t w).
Proof.
  unfold records_deployed. cbn. intros Hdep.
  eapply Forall_impl; [exact Hdep|]. intros stored Hsome. cbn.
  apply lookup_insert_is_Some. destruct (decide (a = token stored)); auto.
Qed.

Lemma createToken_invalid (sender : address) (name_ symbol_ : string)
    (maxSupply_ initialPriceWei_ : N) (w : world) :
  name_ = "" \/ symbol_ = "" \/ maxSupply_ = 0 ->
  exists e, createToken sender name_ symbol_ maxSupply_ initialPriceWei_ w = Err e /\
            error_kind e = Some InvalidArgument.
Proof.
  intros Hbad. rewrite createToken_unfold, constructor_unfold, !length_positive.
  destruct (String.eqb name_ "") eqn:Hn; cbn [negb].
  { eexists. split; reflexivity. }
  destruct (String.eqb symbol_ "") eqn:Hs; cbn [negb].
  { eexists. split; reflexivity. }
  destruct (0 <? maxSupply_) eqn:Hm.
  - exfalso. apply String.eqb_neq in Hn, Hs. apply N.ltb_lt in Hm.
    destruct Hbad as [?|[?|?]]; [congruence|congruence|lia].
  - eexists. split; reflexivity.
Qed.

Lemma createToken_valid (sender : address) (name_ symbol_ : string)
    (maxSupply_ initialPriceWei_ : N) (w : world) :
  name_ <> "" -> symbol_ <> "" -> 0 < maxSupply_ ->
  createToken sender name_ symbol_ maxSupply_ initialPriceWei_ w =
  let a := create_address (dom (deployed w)) in
  Ok a (emit {| ev_token := a; ev_creator := sender; ev_name := name_;
                ev_symbol := symbol_; ev_maxSupply := maxSupply_;
                ev_initialPriceWei := initialPriceWei_ |}
          (push (new_record a sender name_ symbol_ maxSupply_ initialPriceWei_)
             (install a
                {| GenesisToken.name := name_; GenesisToken.symbol := symbol_;
                   GenesisToken.maxSupply := maxSupply_;
                   GenesisToken.mintedSupply := 0;
                   GenesisToken.initialPriceWei := initialPriceWei_;
                   GenesisToken.creator := sender;
                   GenesisToken.ledger := ledger_init;
                   GenesisToken.events := [] |} w))).
Proof.
  intros Hn Hs Hm. rewrite createToken_unfold, constructor_unfold, !length_positive.
  apply String.eqb_neq in Hn, Hs. apply N.ltb_lt in Hm.
  rewrite Hn, Hs, Hm. reflexivity.
Qed.

Lemma createToken_records_deployed (sender : address) (name_ symbol_ : string)
    (maxSupply_ initialPriceWei_ : N) (w : world) :
  records_deployed w ->
  records_deployed
    (snd (transact (createToken sender name_ symbol_ maxSupply_ initialPriceWei_) w)).
Proof.
  intros Hdep. unfold transact. rewrite createToken_unfold.
  destruct (GenesisToken.constructor _ _ _ _ _) as [e|t]; [exact Hdep|].
  cbn [snd]. unfold records_deployed. cbn. apply Forall_app. split.
  - apply (install_records_deployed _ t w Hdep).
  - constructor; [|constructor]. cbn. rewrite lookup_insert_eq. eauto.
Qed.

Lemma call_mint_records_deployed (a sender to : address) (amount : N) (w : world) :
  records_deployed w ->
  records_deployed (snd (transact (call_mint a sender to amount) w)).
Proof.
  intros Hdep. unfold transact, call_mint, bind, get, modify, throw.
  destruct (deployed w !! a) as [t|]; [|exact Hdep].
  destruct (GenesisToken.mint sender to amount t) as [[] t'|e]; [|exact Hdep].
  cbn [snd]. apply install_records_deployed. exact Hdep.
Qed.

(** Every reachable chain state has its records deployed, and every token
    on it satisfies the supply invariant. *)
Lemma reachable_records_deployed (w : world) :
  reachable w -> records_deployed w.
Proof.
  induction 1 as [|w sender name_ symbol_ maxSupply_ price _ IH _
                  |w a sender to amount _ IH _].
  - apply genesis_records_deployed.
  - apply createToken_records_deployed. exact IH.
  - apply call_mint_records_deployed. exact IH.
Qed.

Lemma reachable_tokens_well_formed (w : world) :
  reachable w ->
  forall a t, deployed w !! a = Some t -> GenesisToken.well_formed t.
Proof.
  induction 1 as [|w sender name_ symbol_ maxSupply_ price _ IH Hmax
                  |w b sender to amount _ IH Hamt]; intros a t.
  - cbn. rewrite lookup_empty. discriminate.
  - unfold transact. rewrite createToken_unfold.
    destruct (GenesisToken.constructor name_ symbol_ maxSupply_ price sender)
      as [e|t0] eqn:Hctor; cbn [snd]; [apply IH|].
    cbn. destruct (decide (create_address (dom (deployed w)) = a)) as [->|Hne].
    + rewrite lookup_insert_eq. intros [= <-].
      apply (constructor_well_formed _ _ _ _ _ _ Hmax Hctor).
    + rewrite lookup_insert_ne by exact Hne. apply IH.
  - unfold transact, call_mint, bind, get, modify, throw.
    destruct (deployed w !! b) as [t0|] eqn:Hb; cbn [snd]; [|apply IH].
    pose proof (mint_tx_step_ok
                  {| GenesisToken.call_sender := sender;
                     GenesisToken.call_to := to;
                     GenesisToken.call_amount := amount |} t0
                  (IH b t0 Hb) Hamt) as [Hafter _].
    unfold GenesisToken.mint_tx, transact in Hafter. cbn in Hafter.
    destruct (GenesisToken.mint sender to amount t0) as [[] t'|e];
      cbn [snd]; [|apply IH].
    cbn. destruct (decide (b = a)) as [->|Hne].
    + rewrite lookup_insert_eq. intros [= <-]. exact Hafter.
    + rewrite lookup_insert_ne by exact Hne. apply IH.
Qed.

(** A creation leaves the live view of every record that was already
    there as it was: the new contract sits at an address none of them
    points at. *)
Lemma live_record_after_install (w : world) (t : GenesisToken.storage)
    (ev : TokenCreated) (r stored : TokenMetadata) :
  is_Some (deployed w !! token stored) ->
  live_record (emit ev (push r (install (create_address (dom (deployed w))) t w)))
    stored = live_record w stored.
Proof.
  intros Hsome. unfold live_record. cbn.
  rewrite lookup_insert_ne; [reflexivity|].
  intros Heq. pose proof (create_address_fresh (dom (deployed w))) as Hfresh.
  apply Hfresh. rewrite Heq. apply elem_of_dom. exact Hsome.
Qed.

(** C4. [createToken] with an empty name, an empty symbol or a zero cap
    fails with [InvalidArgument], and the chain is what it was: no token
    contract has been created and the registry holds the same records. *)
Theorem createToken_rejects_invalid_arguments (sender : address)
    (name_ symbol_ : string) (maxSupply_ initialPriceWei_ : N) (w : world) :
  name_ = "" \/ symbol_ = "" \/ maxSupply_ = 0 ->
  failed_with InvalidArgument
    (fst (transact (createToken sender name_ symbol_ maxSupply_ initialPriceWei_) w)) /\
  snd (transact (createToken sender name_ symbol_ maxSupply_ initialPriceWei_) w) = w.
Proof.
  intros Hbad.
  destruct (createToken_invalid sender name_ symbol_ maxSupply_ initialPriceWei_ w Hbad)
    as (e & Hrun & Hkind).
  unfold transact. rewrite Hrun. cbn [fst snd].
  split; [|reflexivity]. exists e. split; [reflexivity|exact Hkind].
Qed.

(** C5. With a non-empty name, a non-empty symbol and a positive cap,
    [createToken] succeeds; afterwards [tokenCount] is one more than it
    was, the registry is the old sequence followed by one new record,
    [getToken] at the new index and [getTokens] at its last position
    report that record with [mintedSupply = 0], every record already in
    the registry is stored and reported as before, and every token
    contract that existed has the storage it had. *)
Theorem createToken_appends_one_record (sender : address)
    (name_ symbol_ : string) (maxSupply_ initialPriceWei_ : N) (w : world) :
  name_ <> "" -> symbol_ <> "" -> 0 < maxSupply_ ->
  exists a w' c,
    transact (createToken sender name_ symbol_ maxSupply_ initialPriceWei_) w
      = (Success a, w') /\
    tokenCount w = Ok c w /\
    tokenCount w' = Ok (c + 1) w' /\
    _tokens w' =
      (_tokens w ++ [new_record a sender name_ symbol_ maxSupply_ initialPriceWei_])%list /\
    mintedSupply (new_record a sender name_ symbol_ maxSupply_ initialPriceWei_) = 0 /\
    getToken c w' =
      Ok (new_record a sender name_ symbol_ maxSupply_ initialPriceWei_) w' /\
    (forall b t, deployed w !! b = Some t -> deployed w' !! b = Some t) /\
    (records_deployed w ->
     exists old,
       getTokens w = Ok old w /\
       getTokens w' =
         Ok (old ++ [new_record a sender name_ symbol_ maxSupply_ initialPriceWei_])%list
            w').
Proof.
  intros Hn Hs Hm.
  pose proof (createToken_valid sender name_ symbol_ maxSupply_ initialPriceWei_ w
                Hn Hs Hm) as Hrun. cbn zeta in Hrun.
  pose proof (createToken_records_deployed sender name_ symbol_ maxSupply_
                initialPriceWei_ w) as Hkeep.
  unfold transact in *. rewrite Hrun in *. cbn [snd] in Hkeep.
  set (a := create_address (dom (deployed w))) in *.
  set (r := new_record a sender name_ symbol_ maxSupply_ initialPriceWei_) in *.
  eexists a, _, (N.of_nat (length (_tokens w))).
  split; [reflexivity|]. split; [reflexivity|]. split.
  { unfold tokenCount, gets. cbn. rewrite length_app. cbn. f_equal. lia. }
  split; [reflexivity|]. split; [reflexivity|]. split.
  { rewrite getToken_unfold. cbn. rewrite Nat2N.id.
    rewrite lookup_app_r by lia. rewrite Nat.sub_diag. cbn.
    rewrite lookup_insert_eq. reflexivity. }
  split.
  { intros b t Hb. cbn. rewrite lookup_insert_ne; [exact Hb|].
    intros <-. pose proof (create_address_fresh (dom (deployed w))) as Hfresh.
    apply Hfresh. apply elem_of_dom. eauto. }
  intros Hdep. exists (live_record w <$> _tokens w).
  split; [apply getTokens_spec; exact Hdep|].
  rewrite getTokens_spec by (apply Hkeep; exact Hdep). f_equal.
  cbn [_tokens emit push install]. rewrite fmap_app. f_equal.
  - apply list_fmap_ext. intros i stored Hi.
    apply live_record_after_install.
    destruct (records_deployed_lookup w i stored Hdep Hi) as [t Ht]. eauto.
  - cbn. unfold live_record. cbn. subst a. rewrite lookup_insert_eq. reflexivity.
Qed.

(** C6. On a registry whose records are deployed, [getTokens] returns one
    record per stored record, in the order of the registry (the order of
    creation), each equal to the stored one but for [mintedSupply], which
    is the counter of the token contract it points at; and it leaves the
    chain as it was. *)
Theorem getTokens_live_merge_in_order (w : world) :
  records_deployed w ->
  exists out,
    transact getTokens w = (Success out, w) /\
    Forall2 (live_merge_of w) (_tokens w) out.
Proof.
  intros Hdep. exists (live_record w <$> _tokens w).
  unfold transact. rewrite (getTokens_spec w Hdep). split; [reflexivity|].
  apply Forall2_fmap_r. apply Forall_Forall2_diag.
  unfold records_deployed in Hdep. eapply Forall_impl; [exact Hdep|].
  intros stored Hsome. apply live_record_is_merge. exact Hsome.
Qed.

(** C7. With [c] the value of [tokenCount()]: for [index >= c],
    [getToken(index)] fails with [IndexOutOfRange]; for [index < c] it
    succeeds and returns the stored record at that position with its
    [mintedSupply] replaced by the counter of the token contract it points
    at. *)
Theorem getToken_index_range (index c : N) (w : world) :
  fst (transact tokenCount w) = Success c ->
  (c <= index ->
   failed_with IndexOutOfRange (fst (transact (getToken index) w)) /\
   snd (transact (getToken index) w) = w) /\
  (index < c -> records_deployed w ->
   exists stored out,
     _tokens w !! N.to_nat index = Some stored /\
     transact (getToken index) w = (Success out, w) /\
     live_merge_of w stored out).
Proof.
  unfold transact at 1, tokenCount, gets. cbn [fst]. intros [= <-]. split.
  - intros Hge. unfold transact. rewrite (getToken_out_of_range index w Hge).
    cbn [fst snd]. split; [|reflexivity].
    exists (Panic 50). split; reflexivity.
  - intros Hlt Hdep.
    destruct (_tokens w !! N.to_nat index) as [stored|] eqn:Hi;
      [|apply lookup_ge_None in Hi; lia].
    exists stored, (live_record w stored). split; [reflexivity|].
    unfold transact. rewrite (getToken_spec index w stored Hdep Hi).
    split; [reflexivity|]. apply live_record_is_merge.
    destruct (records_deployed_lookup w _ stored Hdep Hi) as [t Ht]. eauto.
Qed.

(** C10. On a registry whose records are deployed and for every index
    below [tokenCount()], the record [getToken(index)] returns is the
    element at position [index] of the sequence [getTokens()] returns on
    the same chain state. *)
Theorem getToken_agrees_with_getTokens (index c : N) (w : world) :
  records_deployed w ->
  fst (transact tokenCount w) = Success c ->
  index < c ->
  exists r out,
    transact (getToken index) w = (Success r, w) /\
    transact getTokens w = (Success out, w) /\
    out !! N.to_nat index = Some r.
Proof.
  intros Hdep. unfold transact at 1, tokenCount, gets. cbn [fst].
  intros [= <-] Hlt.
  destruct (_tokens w !! N.to_nat index) as [stored|] eqn:Hi;
    [|apply lookup_ge_None in Hi; lia].
  exists (live_record w stored), (live_record w <$> _tokens w).
  unfold transact.
  rewrite (getToken_spec index w stored Hdep Hi), (getTokens_spec w Hdep).
  split; [reflexivity|]. split; [reflexivity|].
  rewrite list_lookup_fmap, Hi. reflexivity.
Qed.

End RegistryProperties.

(** * Further properties of GenesisToken *)
Section TokenExtras.
Context `{cap : ConfidentialCapability}.
Import GenesisToken MintLog.

Lemma mint_tx_cases (c : MintCall) (st : storage) :
  (exists e, mint_tx c st = (Reverted e, st)) \/
  (exists balances',
      0 < call_amount c /\
      mintedSupply st + call_amount c <= maxSupply st /\
      mint_tx c st =
        (Success tt,
         emit (minted_event c)
           (set_ledger balances'
              (set_mintedSupply
                 (to_uint64 (mintedSupply st + call_amount c)) st)))).
Proof.
  unfold mint_tx.
  destruct (mint_transact_cases (call_sender c) (call_to c) (call_amount c) st)
    as [Hrev|(v & l' & Hpos & Hcap & _ & _ & Hok)]; [left; exact Hrev|].
  right. exists l'. auto.
Qed.

(** [mint] has three ways to fail and no other: on [uint64] values the
    checked [uint256] addition cannot overflow, so the call never panics. *)
Theorem mint_failure_modes (sender to : address) (amount : N) (st : storage) :
  is_uint64 (mintedSupply st) ->
  is_uint64 amount ->
  fst (transact (mint sender to amount) st) = Success tt \/
  fst (transact (mint sender to amount) st) = Reverted (Revert "Amount required") \/
  fst (transact (mint sender to amount) st) = Reverted (Revert "Exceeds supply") \/
  fst (transact (mint sender to amount) st) = Reverted CapabilityFailure.
Proof.
  intros Hms Hamt. unfold transact. rewrite mint_unfold.
  pose proof (uint64_sum_below_uint256 _ _ Hms Hamt) as Hwide.
  apply N.ltb_lt in Hwide. rewrite Hwide.
  destruct (0 <? amount); [|auto].
  destruct (mintedSupply st + amount <=? maxSupply st); [|auto].
  destruct (asEuint64 amount) as [v|]; [|auto].
  destruct (_mint (ledger st) to v); auto.
Qed.

Lemma mint_tx_keeps_immutables (c : MintCall) (st : storage) :
  name (snd (mint_tx c st)) = name st /\
  symbol (snd (mint_tx c st)) = symbol st /\
  maxSupply (snd (mint_tx c st)) = maxSupply st /\
  initialPriceWei (snd (mint_tx c st)) = initialPriceWei st /\
  creator (snd (mint_tx c st)) = creator st.
Proof.
  destruct (mint_tx_cases c st) as [[e He]|(l' & _ & _ & Hok)].
  - rewrite He. cbn. auto.
  - rewrite Hok. cbn. auto.
Qed.

(** Whatever sequence of [mint] transactions runs on a token, [details()]
    keeps returning the same name, symbol, cap, price reference and
    creator; only the minted supply it reports can differ. *)
Theorem details_after_mints (calls : list MintCall) (st : storage) :
  details (run_mints calls st) =
  Ok (name st, symbol st, maxSupply st, mintedSupply (run_mints calls st),
      initialPriceWei st, creator st)
     (run_mints calls st).
Proof.
  revert st. induction calls as [|c calls IH]; intros st; [reflexivity|].
  cbn [run_mints foldl]. fold (run_mints calls (snd (mint_tx c st))).
  rewrite IH.
  destruct (mint_tx_keeps_immutables c st) as (-> & -> & -> & -> & ->).
  reflexivity.
Qed.

Lemma mint_tx_sold_out (c : MintCall) (st : storage) :
  mintedSupply st = maxSupply st ->
  exists e, mint_tx c st = (Reverted e, st).
Proof.
  intros Hfull. destruct (mint_tx_cases c st) as [Hrev|(l' & Hpos & Hcap & _)];
    [exact Hrev|lia].
Qed.

(** Once [mintedSupply] has reached [maxSupply], no [mint] succeeds any
    more, whatever the caller, recipient and amount: every call of every
    later sequence reverts and the storage stays what it is. *)
Theorem sold_out_is_final (calls : list MintCall) (st : storage) :
  mintedSupply st = maxSupply st ->
  run_mints calls st = st /\
  accepted calls st = [] /\
  Forall (fun s => succeeded (returned s) = false) (mint_trace calls st).
Proof.
  intros Hfull. induction calls as [|c calls (IHrun & IHacc & IHtrace)].
  - repeat split. constructor.
  - destruct (mint_tx_sold_out c st Hfull) as [e He].
    cbn [run_mints foldl accepted mint_trace].
    fold (run_mints calls (snd (mint_tx c st))).
    rewrite He. cbn [fst snd succeeded].
    split; [exact IHrun|]. split; [exact IHacc|].
    constructor; [reflexivity|exact IHtrace].
Qed.

(** A [mint] of exactly what is left under the cap goes through when the
    capability accepts it, and takes the token to its cap. *)
Theorem mint_remaining_reaches_cap (sender to : address) (st : storage)
    (v : euint64) (balances' : Ledger) :
  well_formed st ->
  mintedSupply st < maxSupply st ->
  asEuint64 (maxSupply st - mintedSupply st) = Some v ->
  _mint (ledger st) to v = Some balances' ->
  fst (transact (mint sender to (maxSupply st - mintedSupply st)) st) = Success tt /\
  mintedSupply (snd (transact (mint sender to (maxSupply st - mintedSupply st)) st))
    = maxSupply (snd (transact (mint sender to (maxSupply st - mintedSupply st)) st)).
Proof.
  intros [Hmax Hinv] Hleft Henc Hcredit.
  rewrite (mint_within_cap sender to _ st v balances'); [|lia|lia|exact Hmax|exact Henc|exact Hcredit].
  cbn. split; [reflexivity|lia].
Qed.

(** The event log of a token is exactly the successful [mint] calls, in
    the order they were made: each adds one [Minted(msg.sender, to,
    amount)], and a call that reverts adds nothing. *)
Theorem minted_events_are_accepted_calls (calls : list MintCall) (st : storage) :
  events (run_mints calls st) =
  (events st ++ map minted_event (accepted calls st))%list.
Proof.
  revert st. induction calls as [|c calls IH]; intros st.
  - cbn. rewrite app_nil_r. reflexivity.
  - cbn [run_mints foldl accepted].
    fold (run_mints calls (snd (mint_tx c st))). rewrite IH.
    destruct (mint_tx_cases c st) as [[e He]|(l' & _ & _ & Hok)].
    + rewrite He. reflexivity.
    + rewrite Hok. cbn [fst snd succeeded map]. cbn [events emit set_ledger set_mintedSupply].
      rewrite <- app_assoc. reflexivity.
Qed.

Lemma run_mints_logged (calls : list MintCall) (st : storage) :
  logged_amount (run_mints calls st)
    = logged_amount st + total_amount (accepted calls st).
Proof.
  revert st. induction calls as [|c calls IH]; intros st.
  - cbn. lia.
  - cbn [run_mints foldl accepted].
    fold (run_mints calls (snd (mint_tx c st))). rewrite IH.
    destruct (mint_tx_cases c st) as [[e He]|(l' & _ & _ & Hok)].
    + rewrite He. reflexivity.
    + rewrite Hok. cbn [fst snd succeeded total_amount foldr].
      fold (total_amount (accepted calls
        (emit (minted_event c)
           (set_ledger l'
              (set_mintedSupply (to_uint64 (mintedSupply st + call_amount c)) st))))).
      unfold logged_amount. cbn [events emit set_ledger set_mintedSupply].
      rewrite foldr_app. cbn [foldr minted_event amount].
      assert (Hshift : forall (l : list Minted) (k : N),
                foldr (fun ev acc => amount ev + acc) k l
                  = foldr (fun ev acc => amount ev + acc) 0 l + k).
      { clear. induction l as [|ev l IHl]; intros k; cbn [foldr]; [lia|].
        rewrite IHl. lia. }
      rewrite (Hshift (events st)). lia.
Qed.

Lemma run_mints_supply (calls : list MintCall) (st : storage) :
  well_formed st ->
  Forall (fun c => is_uint64 (call_amount c)) calls ->
  well_formed (run_mints calls st) /\
  maxSupply (run_mints calls st) = maxSupply st /\
  mintedSupply (run_mints calls st)
    = mintedSupply st + total_amount (accepted calls st).
Proof.
  intros Hwf Hcalls. revert st Hwf.
  induction Hcalls as [|c calls Hc _ IH]; intros st Hwf.
  - cbn. split; [exact Hwf|]. split; [reflexivity|lia].
  - cbn [run_mints foldl accepted].
    fold (run_mints calls (snd (mint_tx c st))).
    pose proof (mint_tx_step_ok c st Hwf Hc) as (Hafter & _ & Hsame & _).
    cbn [after before] in Hafter, Hsame.
    destruct (IH _ Hafter) as (Hwf' & Hmax' & Hsum').
    split; [exact Hwf'|]. split; [congruence|]. rewrite Hsum'.
    destruct Hwf as [Hmax Hinv]. unfold is_uint64 in *.
    destruct (mint_tx_cases c st) as [[e He]|(l' & _ & Hcap & Hok)].
    + rewrite He. reflexivity.
    + rewrite Hok. cbn [fst snd succeeded total_amount foldr].
      fold (total_amount (accepted calls
        (emit (minted_event c)
           (set_ledger l'
              (set_mintedSupply (to_uint64 (mintedSupply st + call_amount c)) st))))).
      cbn [mintedSupply emit set_ledger set_mintedSupply].
      rewrite to_uint64_small by lia. lia.
Qed.

(** On a token that comes out of its constructor, after any sequence of
    [mint] transactions the counter [mintedSupply] is the sum of the
    amounts of the [Minted] events the token has emitted, and it is within
    the cap given at construction. *)
Theorem supply_is_sum_of_minted_events (name_ symbol_ : string)
    (maxSupply_ initialPriceWei_ : N) (creator_ : address) (st : storage)
    (calls : list MintCall) :
  is_uint64 maxSupply_ ->
  constructor name_ symbol_ maxSupply_ initialPriceWei_ creator_ = inr st ->
  Forall (fun c => is_uint64 (call_amount c)) calls ->
  mintedSupply (run_mints calls st) = logged_amount (run_mints calls st) /\
  mintedSupply (run_mints calls st) <= maxSupply_.
Proof.
  intros Hmax Hctor Hcalls.
  destruct (constructor_well_formed _ _ _ _ _ _ Hmax Hctor) as (Hwf & Hzero & Hcap).
  destruct (run_mints_supply calls st Hwf Hcalls) as ([_ Hinv] & Hsame & Hsum).
  split; [|lia].
  rewrite run_mints_logged.
  assert (Hnone : events st = []).
  { revert Hctor. unfold constructor, constructor_body, bind, require, modify, ret, throw.
    destruct (0 <? N.of_nat (String.length name_)); [|discriminate].
    destruct (0 <? N.of_nat (String.length symbol_)); [|discriminate].
    destruct (0 <? maxSupply_); [|discriminate].
    intros [= <-]. reflexivity. }
  unfold logged_amount. rewrite Hnone, Hsum, Hzero. reflexivity.
Qed.

End TokenExtras.

(** * Further properties of GenesisTokenFactory *)
Section RegistryExtras.
Context `{cap : ConfidentialCapability} `{dep : Deployer}.
Import GenesisTokenFactory Registry.

Lemma fresh_address_not_recorded (w : world) (r : TokenMetadata) :
  is_Some (deployed w !! token r) ->
  create_address (dom (deployed w)) <> token r.
Proof.
  intros Hsome Heq.
  apply (create_address_fresh (dom (deployed w))).
  rewrite Heq. apply elem_of_dom. exact Hsome.
Qed.

Lemma mint_keeps_description (sender to : address) (amount : N)
    (t t' : GenesisToken.storage) (r : TokenMetadata) :
  GenesisToken.mint sender to amount t = Ok tt t' ->
  describes r t -> describes r t'.
Proof.
  intros Hrun (Hn & Hs & Hm & Hp & Hc).
  pose proof (mint_tx_keeps_immutables
                {| GenesisToken.call_sender := sender;
                   GenesisToken.call_to := to;
                   GenesisToken.call_amount := amount |} t) as Hkeep.
  unfold GenesisToken.mint_tx, transact in Hkeep. cbn in Hkeep.
  rewrite Hrun in Hkeep. cbn in Hkeep.
  destruct Hkeep as (Hn' & Hs' & Hm' & Hp' & Hc').
  unfold describes. repeat split; congruence.
Qed.

Lemma reachable_consistent (w : world) :
  reachable w -> consistent w.
Proof.
  induction 1 as [|w sender name_ symbol_ maxSupply_ price _ IH _
                  |w b sender to amount _ IH _].
  - constructor.
  - unfold transact. rewrite createToken_unfold, constructor_unfold.
    destruct (0 <? N.of_nat (String.length name_)); [|exact IH].
    destruct (0 <? N.of_nat (String.length symbol_)); [|exact IH].
    destruct (0 <? maxSupply_); [|exact IH].
    cbn [snd]. unfold consistent. cbn [_tokens emit push install].
    apply Forall_app. split.
    + eapply Forall_impl; [exact IH|]. cbn beta.
      intros r (Hzero & t & Ht & Hdesc). split; [exact Hzero|].
      exists t. split; [|exact Hdesc]. cbn.
      rewrite lookup_insert_ne; [exact Ht|].
      apply fresh_address_not_recorded. eauto.
    + constructor; [|constructor]. split; [reflexivity|].
      eexists. split; [cbn; apply lookup_insert_eq|].
      unfold describes. cbn. auto.
  - unfold transact, call_mint, bind, get, modify, throw.
    destruct (deployed w !! b) as [t0|] eqn:Hb; [|exact IH].
    destruct (GenesisToken.mint sender to amount t0) as [[] t'|e] eqn:Hrun;
      [|exact IH].
    cbn [snd]. unfold consistent. cbn [_tokens install].
    eapply Forall_impl; [exact IH|]. cbn beta.
    intros r (Hzero & t & Ht & Hdesc). split; [exact Hzero|]. cbn.
    destruct (decide (b = token r)) as [->|Hne].
    + exists t'. rewrite lookup_insert_eq. split; [reflexivity|].
      assert (t = t0) by congruence. subst t.
      exact (mint_keeps_description sender to amount t0 t' r Hrun Hdesc).
    + exists t. rewrite lookup_insert_ne by exact Hne. auto.
Qed.

(** In every reachable chain state, each stored record has the snapshot
    [mintedSupply = 0] it was pushed with, points at a token contract that
    exists, and carries that token's own name, symbol, cap, price
    reference and creator. *)
Theorem registry_describes_its_tokens (w : world) (i : nat) (r : TokenMetadata) :
  reachable w ->
  _tokens w !! i = Some r ->
  mintedSupply r = 0 /\
  exists t,
    deployed w !! token r = Some t /\
    GenesisToken.name t = name r /\
    GenesisToken.symbol t = symbol r /\
    GenesisToken.maxSupply t = maxSupply r /\
    GenesisToken.initialPriceWei t = initialPriceWei r /\
    GenesisToken.creator t = creator r.
Proof.
  intros Hreach Hi. pose proof (reachable_consistent w Hreach) as Hcons.
  unfold consistent in Hcons. rewrite Forall_lookup in Hcons.
  exact (Hcons i r Hi).
Qed.

(** No two records of a reachable registry point at the same token
    contract: every [createToken] deploys to an address of its own. *)
Theorem registry_tokens_are_distinct (w : world) :
  reachable w -> NoDup (map token (_tokens w)).
Proof.
  induction 1 as [|w sender name_ symbol_ maxSupply_ price Hreach IH _
                  |w b sender to amount _ IH _].
  - constructor.
  - unfold transact. rewrite createToken_unfold.
    destruct (GenesisToken.constructor _ _ _ _ _) as [e|t0]; [exact IH|].
    cbn [snd _tokens emit push install]. rewrite map_app.
    apply NoDup_app. split; [exact IH|]. split; [|apply NoDup_singleton].
    intros a Hin Hnew. cbn in Hnew. apply list_elem_of_singleton in Hnew.
    apply list_elem_of_fmap in Hin as (r & -> & Hr).
    pose proof (reachable_records_deployed w Hreach) as Hdep.
    unfold records_deployed in Hdep. rewrite Forall_forall in Hdep.
    apply (fresh_address_not_recorded w r); [|symmetry; exact Hnew].
    apply Hdep. exact Hr.
  - unfold transact, call_mint, bind, get, modify, throw.
    destruct (deployed w !! b) as [t0|]; [|exact IH].
    destruct (GenesisToken.mint sender to amount t0) as [[] t'|e]; exact IH.
Qed.

(** The [TokenCreated] events a reachable factory has emitted are, one for
    one and in the same order, the records it stores. *)
Theorem created_events_mirror_registry (w : world) :
  reachable w -> created w = map creation_event (_tokens w).
Proof.
  induction 1 as [|w sender name_ symbol_ maxSupply_ price _ IH _
                  |w b sender to amount _ IH _].
  - reflexivity.
  - unfold transact. rewrite createToken_unfold.
    destruct (GenesisToken.constructor _ _ _ _ _) as [e|t0]; [exact IH|].
    cbn [snd _tokens created emit push install]. rewrite map_app, IH.
    reflexivity.
  - unfold transact, call_mint, bind, get, modify, throw.
    destruct (deployed w !! b) as [t0|]; [|exact IH].
    destruct (GenesisToken.mint sender to amount t0) as [[] t'|e]; exact IH.
Qed.

(** On a reachable chain state, what [getToken(index)] returns for a
    record is what [details()] of the token it points at returns: the two
    read paths report the same name, symbol, cap, minted supply, price
    reference and creator. *)
Theorem getToken_agrees_with_details (index : N) (w : world) (r : TokenMetadata) :
  reachable w ->
  _tokens w !! N.to_nat index = Some r ->
  exists t out,
    deployed w !! token r = Some t /\
    getToken index w = Ok out w /\
    token out = token r /\
    GenesisToken.details t = Ok (details_of out) t.
Proof.
  intros Hreach Hi.
  pose proof (reachable_consistent w Hreach) as Hcons.
  unfold consistent in Hcons. rewrite Forall_lookup in Hcons.
  destruct (Hcons _ _ Hi) as (_ & t & Ht & Hn & Hs & Hm & Hp & Hc).
  exists t, (merged r (GenesisToken.mintedSupply t)).
  split; [exact Ht|]. rewrite getToken_unfold, Hi, Ht.
  split; [reflexivity|]. split; [reflexivity|].
  unfold GenesisToken.details, bind, get, ret, details_of. cbn.
  rewrite Hn, Hs, Hm, Hp, Hc. reflexivity.
Qed.

(** On a reachable chain state [getTokens] succeeds and every record it
    returns has a minted supply within its cap, the cap being a
    [uint64]. *)
Theorem listed_supply_within_cap (w : world) :
  reachable w ->
  exists out,
    getTokens w = Ok out w /\
    Forall (fun r => mintedSupply r <= maxSupply r /\ is_uint64 (maxSupply r)) out.
Proof.
  intros Hreach.
  pose proof (reachable_records_deployed w Hreach) as Hdep.
  exists (live_record w <$> _tokens w). split; [apply getTokens_spec; exact Hdep|].
  apply Forall_fmap.
  pose proof (reachable_consistent w Hreach) as Hcons.
  eapply Forall_impl; [exact Hcons|]. cbn beta.
  intros r (_ & t & Ht & _ & _ & Hm & _). unfold compose.
  rewrite (live_record_deployed w r t Ht). cbn.
  destruct (reachable_tokens_well_formed w Hreach _ _ Ht) as [Hmax Hinv].
  rewrite <- Hm. split; [exact Hinv|exact Hmax].
Qed.

(** A [mint] on the token at address [a], whether it succeeds or not,
    leaves the registry's records and events as they are, deploys and
    removes nothing, and changes no other token: [getTokens] afterwards
    returns the same record at every position that does not point at
    [a]. *)
Theorem mint_changes_one_token (a sender to : address) (amount : N) (w : world) :
  records_deployed w ->
  _tokens (snd (transact (call_mint a sender to amount) w)) = _tokens w /\
  created (snd (transact (call_mint a sender to amount) w)) = created w /\
  dom (deployed (snd (transact (call_mint a sender to amount) w)))
    = dom (deployed w) /\
  (forall b, b <> a ->
     deployed (snd (transact (call_mint a sender to amount) w)) !! b
       = deployed w !! b) /\
  exists out out',
    getTokens w = Ok out w /\
    getTokens (snd (transact (call_mint a sender to amount) w))
      = Ok out' (snd (transact (call_mint a sender to amount) w)) /\
    length out' = length out /\
    (forall i r, _tokens w !! i = Some r -> token r <> a ->
       out' !! i = out !! i).
Proof.
  intros Hdep.
  pose proof (call_mint_records_deployed a sender to amount w Hdep) as Hdep'.
  revert Hdep'. unfold transact, call_mint, bind, get, modify, throw.
  destruct (deployed w !! a) as [t0|] eqn:Ha.
  2:{ cbn [snd]. intros _. do 4 (split; [reflexivity|]).
      exists (live_record w <$> _tokens w), (live_record w <$> _tokens w).
      rewrite (getTokens_spec w Hdep). auto. }
  destruct (GenesisToken.mint sender to amount t0) as [[] t'|e].
  2:{ cbn [snd]. intros _. do 4 (split; [reflexivity|]).
      exists (live_record w <$> _tokens w), (live_record w <$> _tokens w).
      rewrite (getTokens_spec w Hdep). auto. }
  cbn [snd]. intros Hdep'.
  split; [reflexivity|]. split; [reflexivity|]. split.
  { cbn. apply dom_insert_lookup_L. eauto. }
  split.
  { intros b Hne. cbn. apply lookup_insert_ne. congruence. }
  exists (live_record w <$> _tokens w),
         (live_record (install a t' w) <$> _tokens w).
  split; [apply getTokens_spec; exact Hdep|].
  split; [apply (getTokens_spec (install a t' w) Hdep')|].
  split; [rewrite !length_fmap; reflexivity|].
  intros i r Hi Hne. rewrite !list_lookup_fmap, Hi. cbn. f_equal.
  unfold live_record. cbn. rewrite lookup_insert_ne by congruence. reflexivity.
Qed.

(** A token created with valid arguments can be minted at once by anyone:
    after [createToken] and one [mint] of an amount within the cap that
    the capability accepts, [getToken] at the new index reports the
    created record with [mintedSupply] equal to the amount minted. *)
Theorem created_token_is_mintable (sender minter to : address)
    (name_ symbol_ : string) (maxSupply_ initialPriceWei_ amount : N)
    (v : euint64) (balances' : Ledger) (w : world) :
  name_ <> "" -> symbol_ <> "" ->
  is_uint64 maxSupply_ ->
  0 < amount -> amount <= maxSupply_ ->
  asEuint64 amount = Some v ->
  _mint ledger_init to v = Some balances' ->
  exists a w1 c,
    transact (createToken sender name_ symbol_ maxSupply_ initialPriceWei_) w
      = (Success a, w1) /\
    tokenCount w = Ok c w /\
    fst (transact (call_mint a minter to amount) w1) = Success tt /\
    getToken c (snd (transact (call_mint a minter to amount) w1))
      = Ok (merged (new_record a sender name_ symbol_ maxSupply_ initialPriceWei_)
              amount)
           (snd (transact (call_mint a minter to amount) w1)).
Proof.
  intros Hn Hs Hmax Hpos Hcap Henc Hcredit.
  assert (Hm : 0 < maxSupply_) by lia.
  pose proof (createToken_valid sender name_ symbol_ maxSupply_ initialPriceWei_ w
                Hn Hs Hm) as Hrun. cbn zeta in Hrun.
  set (a := create_address (dom (deployed w))) in *.
  eexists a, _, (N.of_nat (length (_tokens w))).
  unfold transact at 1. rewrite Hrun. split; [reflexivity|].
  split; [reflexivity|].
  match goal with
  | |- context [install a ?t0 w] => set (t0' := t0)
  end.
  pose proof (mint_within_cap minter to amount t0' v balances') as Hmint.
  unfold transact in Hmint.
  unfold transact, call_mint, bind, get, modify, throw.
  cbn [deployed emit push install]. rewrite lookup_insert_eq.
  destruct (GenesisToken.mint minter to amount t0') as [[] t'|e] eqn:Hm'.
  - specialize (Hmint Hpos). cbn in Hmint.
    specialize (Hmint ltac:(lia) Hmax Henc Hcredit).
    injection Hmint as Ht'. cbn [fst snd]. split; [reflexivity|].
    rewrite getToken_unfold. cbn [_tokens emit push install].
    rewrite Nat2N.id, lookup_app_r by lia. rewrite Nat.sub_diag. cbn.
    rewrite lookup_insert_eq. rewrite Ht'. cbn. rewrite N.add_0_l. reflexivity.
  - specialize (Hmint Hpos). cbn in Hmint.
    specialize (Hmint ltac:(lia) Hmax Henc Hcredit). discriminate Hmint.
Qed.

(** The outcome of [createToken] in full: the constructor's checks are
    made in the order name, symbol, cap, the first that fails gives the
    revert reason, and with all three passed the call returns the address
    of the new token. *)
Theorem createToken_outcome (sender : address) (name_ symbol_ : string)
    (maxSupply_ initialPriceWei_ : N) (w : world) :
  fst (transact (createToken sender name_ symbol_ maxSupply_ initialPriceWei_) w) =
  if String.eqb name_ "" then Reverted (Revert "Name required")
  else if String.eqb symbol_ "" then Reverted (Revert "Symbol required")
  else if maxSupply_ =? 0 then Reverted (Revert "Max supply required")
  else Success (create_address (dom (deployed w))).
Proof.
  unfold transact. rewrite createToken_unfold, constructor_unfold, !length_positive.
  destruct (String.eqb name_ ""); [reflexivity|].
  destruct (String.eqb symbol_ ""); [reflexivity|]. cbn [negb].
  destruct (N.eqb_spec maxSupply_ 0) as [->|Hnz]; [reflexivity|].
  assert (Hpos : (0 <? maxSupply_) = true) by (apply N.ltb_lt; lia).
  rewrite Hpos. reflexivity.
Qed.

End RegistryExtras.

(** * The GenesisPad page against the contracts *)
Section PageProperties.
Context `{cap : ConfidentialCapability} `{dep : Deployer}.
Variable trim : string -> string.
Variable BigInt : string -> option Z.
Variable parseEther : string -> option Z.
Hypothesis BigInt_decimal :
  forall digits, GenesisPad.digits_only digits = true ->
    BigInt digits = Some (Z.of_N (GenesisPad.decimal_value digits)).
Import GenesisPad.

Lemma or_else_digits (s fallback : string) :
  digits_only s = true -> digits_only fallback = true ->
  digits_only (or_else s fallback) = true.
Proof. intros Hs Hf. unfold or_else. destruct (String.eqb s ""); assumption. Qed.

Lemma or_else_zero_value (s : string) :
  decimal_value (or_else s "0") = decimal_value s.
Proof.
  unfold or_else. destruct (String.eqb_spec s "") as [->|_]; reflexivity.
Qed.

Lemma onChange_supply_digits (e : FormChange) (formState : FormState) :
  digits_only (supply formState) = true ->
  digits_only (supply (onChange e formState)) = true.
Proof.
  intros Hd. destruct e as [v|v|v|v]; cbn; try exact Hd.
  destruct (digits_only v) eqn:Hv; cbn; [exact Hv|exact Hd].
Qed.

Lemma form_after_supply_digits (changes : list FormChange) :
  digits_only (supply (form_after changes)) = true.
Proof.
  unfold form_after.
  assert (Hgen : forall f, digits_only (supply f) = true ->
            digits_only (supply (foldl (fun formState e => onChange e formState)
                                   f changes)) = true).
  { induction changes as [|e changes IH]; intros f Hf; [exact Hf|].
    cbn [foldl]. apply IH. apply onChange_supply_digits. exact Hf. }
  apply Hgen. reflexivity.
Qed.





(** On the form as the page lets it be edited, [handleCreateToken] raises
    an exception only out of [parseEther]: the supply box holds digits
    only, which [BigInt] always reads. *)
Theorem handleCreateToken_throws_only_on_price (wallet : Wallet)
    (changes : list FormChange) :
  handleCreateToken trim BigInt parseEther wallet (form_after changes) = Throws ->
  parseEther (or_else (price (form_after changes)) "0") = None /\
  trim (name (form_after changes)) <> "" /\
  trim (symbol (form_after changes)) <> "" /\
  0 < decimal_value (supply (form_after changes)).
Proof.
  pose proof (form_after_supply_digits changes) as Hd.
  unfold handleCreateToken.
  destruct (isConnected wallet); cbn [negb]; [|discriminate].
  destruct (factoryConfigured wallet); cbn [negb]; [|discriminate].
  destruct (signer wallet); cbn [negb]; [|discriminate].
  destruct (String.eqb_spec (trim (name (form_after changes))) "") as [|Hn];
    cbn [orb]; [discriminate|].
  destruct (String.eqb_spec (trim (symbol (form_after changes))) "") as [|Hs];
    [discriminate|].
  rewrite (BigInt_decimal (or_else (supply (form_after changes)) "0"))
    by (apply or_else_digits; [exact Hd|reflexivity]).
  rewrite or_else_zero_value.
  destruct (Z.of_N (decimal_value (supply (form_after changes))) <=? 0)%Z eqn:Hle;
    [discriminate|].
  apply Z.leb_gt in Hle.
  destruct (parseEther _) as [p|]; [discriminate|].
  intros _. repeat split; try assumption. lia.
Qed.

(** A token card of a reachable chain state: [remaining] is never
    negative; when the card shows "Sold out" every [mint] on its token
    reverts, and when it shows "Mint free" a [mint] of one unit, the
    amount of an untouched box, goes through whenever the capability
    accepts it. *)
Theorem sold_out_label_is_accurate (w : GenesisTokenFactory.world)
    (out : list GenesisTokenFactory.TokenMetadata) (i : nat)
    (r : GenesisTokenFactory.TokenMetadata) :
  GenesisTokenFactory.reachable w ->
  GenesisTokenFactory.getTokens w = Ok out w ->
  out !! i = Some r ->
  exists t,
    GenesisTokenFactory.deployed w !! GenesisTokenFactory.token r = Some t /\
    (0 <= remaining r)%Z /\
    (mint_label r = "Sold out" \/ mint_label r = "Mint free") /\
    (mint_label r = "Sold out" ->
     forall c, exists e, GenesisToken.mint_tx c t = (Reverted e, t)) /\
    (mint_label r = "Mint free" ->
     forall (sender to : address) v balances',
       asEuint64 1 = Some v ->
       _mint (GenesisToken.ledger t) to v = Some balances' ->
       fst (transact (GenesisToken.mint sender to 1) t) = Success tt).
Proof.
  intros Hreach Hout Hi.
  pose proof (reachable_records_deployed w Hreach) as Hdep.
  rewrite (getTokens_spec w Hdep) in Hout. injection Hout as <-.
  rewrite list_lookup_fmap in Hi.
  destruct (GenesisTokenFactory._tokens w !! i) as [stored|] eqn:Hs;
    [|discriminate]. injection Hi as <-.
  pose proof (reachable_consistent w Hreach) as Hcons.
  unfold Registry.consistent in Hcons. rewrite Forall_lookup in Hcons.
  destruct (Hcons _ _ Hs) as (_ & t & Ht & _ & _ & Hm & _).
  destruct (reachable_tokens_well_formed w Hreach _ _ Ht) as [Hmax Hinv].
  exists t. split; [exact Ht|].
  unfold mint_label, remaining.
  rewrite (live_record_deployed w stored t Ht). cbn. rewrite <- Hm.
  split; [lia|].
  destruct (Z.eqb_spec
              (Z.of_N (GenesisToken.maxSupply t)
               - Z.of_N (GenesisToken.mintedSupply t)) 0) as [Hzero|Hleft].
  - split; [left; reflexivity|]. split; [|discriminate].
    intros _ c. apply mint_tx_sold_out. lia.
  - split; [right; reflexivity|]. split; [discriminate|].
    intros _ sender to v balances' Henc Hcredit.
    rewrite (mint_within_cap sender to 1 t v balances');
      [reflexivity|lia|lia|exact Hmax|exact Henc|exact Hcredit].
Qed.

End PageProperties.

(** ** The registry properties on the reference capability and deployer *)

Import Reference.

Lemma createToken_rejects_invalid_arguments_witness :
  failed_with InvalidArgument
    (fst (transact (GenesisTokenFactory.createToken Reference.alice "" "gUSD" 5 0)
            Reference.gusd_world)) /\
  snd (transact (GenesisTokenFactory.createToken Reference.alice "" "gUSD" 5 0)
         Reference.gusd_world) = Reference.gusd_world.
Proof.
  apply (createToken_rejects_invalid_arguments Reference.alice "" "gUSD" 5 0
           Reference.gusd_world).
  left. reflexivity.
Defined.

Lemma createToken_appends_one_record_witness :
  exists a w' c,
    transact (GenesisTokenFactory.createToken Reference.bob "Second" "SND" 10 0)
      Reference.gusd_world = (Success a, w') /\
    GenesisTokenFactory.tokenCount Reference.gusd_world = Ok c Reference.gusd_world /\
    GenesisTokenFactory.tokenCount w' = Ok (c + 1) w'.
Proof.
  destruct (createToken_appends_one_record Reference.bob "Second" "SND" 10 0
              Reference.gusd_world)
    as (a & w' & c & Hrun & Hbefore & Hafter & _).
  - discriminate.
  - discriminate.
  - reflexivity.
  - exists a, w', c. auto.
Defined.

Lemma getTokens_live_merge_in_order_witness :
  GenesisTokenFactory.records_deployed Reference.busy_world /\
  exists out,
    transact GenesisTokenFactory.getTokens Reference.busy_world
      = (Success out, Reference.busy_world) /\
    Forall2 (GenesisTokenFactory.live_merge_of Reference.busy_world)
      (GenesisTokenFactory._tokens Reference.busy_world) out.
Proof.
  assert (Hdep : GenesisTokenFactory.records_deployed Reference.busy_world)
    by (vm_compute; repeat econstructor).
  split; [exact Hdep|].
  apply (getTokens_live_merge_in_order Reference.busy_world Hdep).
Defined.

Lemma getToken_index_range_witness :
  fst (transact GenesisTokenFactory.tokenCount Reference.busy_world) = Success 2 /\
  failed_with IndexOutOfRange
    (fst (transact (GenesisTokenFactory.getToken 2) Reference.busy_world)) /\
  exists stored out,
    GenesisTokenFactory._tokens Reference.busy_world !! N.to_nat 0 = Some stored /\
    transact (GenesisTokenFactory.getToken 0) Reference.busy_world
      = (Success out, Reference.busy_world) /\
    GenesisTokenFactory.live_merge_of Reference.busy_world stored out.
Proof.
  assert (Hcount : fst (transact GenesisTokenFactory.tokenCount Reference.busy_world)
                     = Success 2) by reflexivity.
  assert (Hdep : GenesisTokenFactory.records_deployed Reference.busy_world)
    by (vm_compute; repeat econstructor).
  split; [exact Hcount|]. split.
  - destruct (getToken_index_range 2 2 Reference.busy_world Hcount) as [Hout _].
    apply Hout. vm_compute. discriminate.
  - destruct (getToken_index_range 0 2 Reference.busy_world Hcount) as [_ Hin].
    apply Hin; [reflexivity|exact Hdep].
Defined.

Lemma getToken_agrees_with_getTokens_witness :
  exists r out,
    transact (GenesisTokenFactory.getToken 0) Reference.busy_world
      = (Success r, Reference.busy_world) /\
    transact GenesisTokenFactory.getTokens Reference.busy_world
      = (Success out, Reference.busy_world) /\
    out !! N.to_nat 0 = Some r.
Proof.
  apply (getToken_agrees_with_getTokens 0 2 Reference.busy_world).
  - vm_compute. repeat econstructor.
  - reflexivity.
  - reflexivity.
Defined.

(** The scenario of the test suite and of the design document: after the
    creation [getTokens] lists one record with nothing minted; minting 5
    and then 999,995 takes the supply to the cap, and one more unit is
    refused with the supply staying at the cap. *)
Example scenario_listing :
  exists r,
    transact GenesisTokenFactory.getTokens Reference.gusd_world
      = (Success [r], Reference.gusd_world) /\
    GenesisTokenFactory.name r = "Genesis USD" /\
    GenesisTokenFactory.symbol r = "gUSD" /\
    GenesisTokenFactory.maxSupply r = 1000000 /\
    GenesisTokenFactory.mintedSupply r = 0.
Proof. eexists. repeat split; reflexivity. Qed.

Example scenario_supplies :
  map (fun s => (succeeded (GenesisToken.returned s),
                 GenesisToken.mintedSupply (GenesisToken.after s)))
    (GenesisToken.mint_trace Reference.scenario_calls Reference.gusd)
  = [(true, 5); (true, 1000000); (false, 1000000)].
Proof. reflexivity. Qed.

Example scenario_live_read :
  map GenesisTokenFactory.mintedSupply
    (GenesisTokenFactory._tokens Reference.busy_world) = [0; 0] /\
  exists out,
    GenesisTokenFactory.getTokens Reference.busy_world
      = Ok out Reference.busy_world /\
    map GenesisTokenFactory.mintedSupply out = [5; 0].
Proof. split; [reflexivity|]. eexists. split; reflexivity. Qed.

Example gusd_is_constructed :
  GenesisToken.constructor "Genesis USD" "gUSD" 1000000 50000000000000000 alice
    = inr gusd /\
  GenesisTokenFactory.deployed gusd_world !! 1 = Some gusd.
Proof. split; reflexivity. Qed.


(** ** The further properties on the reference capability, deployer and
    parsers *)

Ltac reach_busy_world :=
  unfold busy_world, gusd_world, gusd_created;
  repeat first
    [ exact GenesisTokenFactory.reachable_genesis
    | apply GenesisTokenFactory.reachable_createToken
    | apply GenesisTokenFactory.reachable_mint
    | reflexivity ].

Lemma mint_failure_modes_witness :
  fst (transact (GenesisToken.mint bob bob 18446744073709551615) near_limit)
    = Reverted (Revert "Exceeds supply").
Proof.
  destruct (mint_failure_modes bob bob 18446744073709551615 near_limit)
    as [H|[H|[H|H]]].
  - reflexivity.
  - reflexivity.
  - vm_compute in H. discriminate H.
  - vm_compute in H. discriminate H.
  - exact H.
  - vm_compute in H. discriminate H.
Defined.

Lemma sold_out_is_final_witness :
  MintLog.run_mints scenario_calls
    (MintLog.run_mints (firstn 2 scenario_calls) gusd)
  = MintLog.run_mints (firstn 2 scenario_calls) gusd.
Proof.
  destruct (sold_out_is_final scenario_calls
              (MintLog.run_mints (firstn 2 scenario_calls) gusd)) as [Hsame _].
  - reflexivity.
  - exact Hsame.
Defined.

Lemma mint_remaining_reaches_cap_witness :
  fst (transact
         (GenesisToken.mint bob bob
            (GenesisToken.maxSupply gusd - GenesisToken.mintedSupply gusd))
         gusd) = Success tt.
Proof.
  destruct (mint_remaining_reaches_cap bob bob gusd 1000000 {[ bob := 1000000 ]})
    as [Hok _].
  - split; vm_compute; [reflexivity|discriminate].
  - reflexivity.
  - reflexivity.
  - reflexivity.
  - exact Hok.
Defined.

Lemma supply_is_sum_of_minted_events_witness :
  GenesisToken.mintedSupply (MintLog.run_mints scenario_calls gusd)
    = MintLog.logged_amount (MintLog.run_mints scenario_calls gusd) /\
  GenesisToken.mintedSupply (MintLog.run_mints scenario_calls gusd) <= 1000000.
Proof.
  apply (supply_is_sum_of_minted_events "Genesis USD" "gUSD" 1000000
           50000000000000000 alice gusd scenario_calls).
  - reflexivity.
  - reflexivity.
  - repeat constructor.
Defined.

Lemma registry_describes_its_tokens_witness :
  exists r,
    GenesisTokenFactory._tokens busy_world !! 0%nat = Some r /\
    GenesisTokenFactory.mintedSupply r = 0 /\
    exists t,
      GenesisTokenFactory.deployed busy_world !! GenesisTokenFactory.token r
        = Some t /\
      GenesisToken.maxSupply t = GenesisTokenFactory.maxSupply r /\
      GenesisToken.mintedSupply t = 5.
Proof.
  eexists. split; [reflexivity|].
  destruct (registry_describes_its_tokens busy_world 0 _ ltac:(reach_busy_world)
              eq_refl) as (Hzero & t & Ht & _ & _ & Hmax & _).
  split; [exact Hzero|]. exists t. split; [exact Ht|]. split; [exact Hmax|].
  vm_compute in Ht. injection Ht as <-. reflexivity.
Defined.

Lemma registry_tokens_are_distinct_witness :
  NoDup (map GenesisTokenFactory.token (GenesisTokenFactory._tokens busy_world)).
Proof.
  apply (registry_tokens_are_distinct busy_world). reach_busy_world.
Defined.

Lemma created_events_mirror_registry_witness :
  GenesisTokenFactory.created busy_world
    = map Registry.creation_event (GenesisTokenFactory._tokens busy_world).
Proof.
  apply (created_events_mirror_registry busy_world). reach_busy_world.
Defined.

Lemma getToken_agrees_with_details_witness :
  exists r t out,
    GenesisTokenFactory._tokens busy_world !! N.to_nat 0 = Some r /\
    GenesisTokenFactory.deployed busy_world !! GenesisTokenFactory.token r
      = Some t /\
    GenesisTokenFactory.getToken 0 busy_world = Ok out busy_world /\
    GenesisToken.details t = Ok (Registry.details_of out) t.
Proof.
  eexists.
  destruct (getToken_agrees_with_details 0 busy_world _ ltac:(reach_busy_world)
              eq_refl) as (t & out & Ht & Hget & _ & Hdetails).
  exists t, out. split; [reflexivity|]. auto.
Defined.

Lemma listed_supply_within_cap_witness :
  exists out,
    GenesisTokenFactory.getTokens busy_world = Ok out busy_world /\
    Forall (fun r => GenesisTokenFactory.mintedSupply r
                       <= GenesisTokenFactory.maxSupply r /\
                     is_uint64 (GenesisTokenFactory.maxSupply r)) out.
Proof.
  apply (listed_supply_within_cap busy_world). reach_busy_world.
Defined.

Lemma mint_changes_one_token_witness :
  GenesisTokenFactory._tokens
    (snd (transact (GenesisTokenFactory.call_mint 2 alice bob 3) busy_world))
  = GenesisTokenFactory._tokens busy_world.
Proof.
  destruct (mint_changes_one_token 2 alice bob 3 busy_world) as [Hsame _].
  - vm_compute. repeat econstructor.
  - exact Hsame.
Defined.

Lemma created_token_is_mintable_witness :
  exists a w1 c,
    transact (GenesisTokenFactory.createToken alice "Third" "TRD" 100 0) busy_world
      = (Success a, w1) /\
    GenesisTokenFactory.tokenCount busy_world = Ok c busy_world /\
    fst (transact (GenesisTokenFactory.call_mint a bob bob 7) w1) = Success tt.
Proof.
  destruct (created_token_is_mintable (cap := clear_capability)
              alice bob bob "Third" "TRD" 100 0 7
              7 {[ bob := 7 ]} busy_world)
    as (a & w1 & c & Hcreate & Hcount & Hmint & _).
  - discriminate.
  - discriminate.
  - reflexivity.
  - reflexivity.
  - vm_compute. discriminate.
  - reflexivity.
  - reflexivity.
  - exists a, w1, c. auto.
Defined.



Lemma handleCreateToken_throws_only_on_price_witness :
  ReferencePage.parseEther
    (GenesisPad.or_else
       (GenesisPad.price
          (GenesisPad.form_after
             (ReferencePage.typed_form ++ [GenesisPad.ChangePrice "cheap"])))
       "0") = None.
Proof.
  assert (Hlaw : forall digits, GenesisPad.digits_only digits = true ->
            ReferencePage.BigInt digits
              = Some (Z.of_N (GenesisPad.decimal_value digits))).
  { intros digits Hd. unfold ReferencePage.BigInt. rewrite Hd. reflexivity. }
  destruct (handleCreateToken_throws_only_on_price ReferencePage.trim
              ReferencePage.BigInt ReferencePage.parseEther Hlaw
              ReferencePage.connected
              (ReferencePage.typed_form ++ [GenesisPad.ChangePrice "cheap"])
              eq_refl) as [Hprice _].
  exact Hprice.
Defined.

Lemma sold_out_label_is_accurate_witness :
  exists r t,
    GenesisTokenFactory.deployed busy_world !! GenesisTokenFactory.token r
      = Some t /\
    GenesisPad.mint_label r = "Mint free" /\
    (0 <= GenesisPad.remaining r)%Z.
Proof.
  destruct (sold_out_label_is_accurate busy_world _ 0 _
              ltac:(reach_busy_world) eq_refl eq_refl)
    as (t & Ht & Hleft & _).
  eexists _, t. split; [exact Ht|]. split; [reflexivity|exact Hleft].
Defined.
